(** * IDFM Home Assistant integration: topology filter and key rotation

    A shallow embedding of
    - [custom_components/idfm/topology.py]    (class [LineTopology]),
    - [custom_components/idfm/api_wrapper.py] (class [MultiKeyIDFMApi]),
    - [custom_components/idfm/__init__.py]    (class [IDFMDataUpdateCoordinator]),
    followed by the properties established about them. *)

From Stdlib Require Import ZArith List String Ascii Lia Bool.
From Stdlib Require Import Sorting.Sorted Sorting.Permutation.
From stdpp Require Import gmap strings list.
From Equations Require Import Equations.
Import ListNotations.

Local Open Scope string_scope.
Local Open Scope list_scope.

(** ** The Python built-ins the code relies on *)

Module Py.

(** [s.startswith(pre)] *)
Fixpoint startswith (pre s : string) : bool :=
  match pre, s with
  | EmptyString, _ => true
  | String _ _, EmptyString => false
  | String a pre', String b s' => if Ascii.eqb a b then startswith pre' s' else false
  end.

(** [sub in s] on strings: [sub] occurs somewhere in [s]. *)
Fixpoint contains (sub s : string) : bool :=
  startswith sub s ||
  match s with
  | EmptyString => false
  | String _ s' => contains sub s'
  end.

(** [s.split(sep)] for a non-empty separator: a left-to-right scan that
    cuts at every non-overlapping occurrence of [sep].  [cur] is the field
    being collected and [skip] the number of characters of a separator that
    has just been recognised and remains to be consumed. *)
Fixpoint split_scan (sep : string) (skip : nat) (cur s : string) : list string :=
  match s with
  | EmptyString => [cur]
  | String c s' =>
      match skip with
      | S k => split_scan sep k cur s'
      | O =>
          if startswith sep s
          then cur :: split_scan sep (String.length sep - 1) EmptyString s'
          else split_scan sep 0 (cur +:+ String c EmptyString) s'
      end
  end.

Definition split (sep s : string) : list string := split_scan sep 0 EmptyString s.

(** [l[1]]; [None] stands for the [IndexError] Python raises. *)
Definition item1 {A} (l : list A) : option A := l !! 1.

(** [l[-2]]; [None] stands for the [IndexError] Python raises. *)
Definition item_m2 {A} (l : list A) : option A :=
  if (List.length l <? 2)%nat then None else l !! (List.length l - 2)%nat.

(** [l[-1]] on a non-empty list. *)
Definition item_m1 {A} (l : list A) : option A := last l.

(** Truth value of a string or [None]: only non-empty strings are true. *)
Definition truthy (v : option string) : bool :=
  match v with
  | Some (String _ _) => true
  | _ => false
  end.

(** [l.index(x)] on a list of strings: position of the first element equal
    to [x].  [x] may be [None], which equals no string.  The result [None]
    stands for the [ValueError] Python raises when [x] is not in [l]. *)
Fixpoint index_from (l : list string) (x : string) (i : nat) : option nat :=
  match l with
  | [] => None
  | y :: l' => if String.eqb y x then Some i else index_from l' x (S i)
  end.

Definition index (l : list string) (x : option string) : option nat :=
  match x with
  | None => None
  | Some s => index_from l s 0
  end.

(** [sorted(l, key=key)] with integer keys: Python's sort is stable, so the
    result is the one of a stable insertion sort (an element goes in front
    of the later elements with the same key). *)
Fixpoint insert_by {A} (key : A -> Z) (x : A) (l : list A) : list A :=
  match l with
  | [] => [x]
  | y :: l' => if (key x <=? key y)%Z then x :: y :: l' else y :: insert_by key x l'
  end.

Definition sorted {A} (key : A -> Z) (l : list A) : list A :=
  fold_right (fun x acc => insert_by key x acc) [] l.

End Py.

(** ** topology.py *)

Module Topology.

(** [Dict[TerminusID, List[List[StopID]]]]: the routes of one line, grouped
    by their last stop. *)
Abbreviation TopologyTable := (gmap string (list (list string))).

(** [LineTopology._extract_stif_id] on a string identifier.  [None] is the
    Python [None] returned from the [except (IndexError, AttributeError)]
    branch. *)
Definition _extract_stif_id (navitia_id : string) : option string :=
  match
    (if Py.contains "IDFM:" navitia_id
     then Py.item1 (Py.split "IDFM:" navitia_id)
     else Some navitia_id)
  with
  | None => None
  | Some stif_part => Py.item_m2 (Py.split ":" stif_part)
  end.

(** Body of the [try] block of [check_stop_on_path] for one route; [None]
    stands for the [ValueError] of a failed [route.index]. *)
Definition route_try (route : list string)
    (start_id target_id terminus_id : option string) : option bool :=
  match Py.index route start_id with
  | None => None
  | Some idx_start =>
      match Py.index route target_id with
      | None => None
      | Some idx_target =>
          match Py.index route terminus_id with
          | None => None
          | Some idx_end => Some ((idx_start <? idx_target)%nat && (idx_target <=? idx_end)%nat)
          end
      end
  end.

(** The [for route in possible_routes] loop. *)
Fixpoint routes_loop (possible_routes : list (list string))
    (start_id target_id terminus_id : option string) : bool :=
  match possible_routes with
  | [] => false
  | route :: rest =>
      match route_try route start_id target_id terminus_id with
      | Some true => true
      | Some false => routes_loop rest start_id target_id terminus_id
      | None => (* except ValueError: continue *)
          routes_loop rest start_id target_id terminus_id
      end
  end.

(** [LineTopology.check_stop_on_path].  The identifiers may be [None]
    (the coordinator passes the result of its own normalisation); the keys
    and the stops of a table are strings. *)
Definition check_stop_on_path (topology : TopologyTable)
    (start_id target_id terminus_id : option string) : bool :=
  match terminus_id with
  | None => false
  | Some t =>
      match topology !! t with
      | None => false
      | Some possible_routes =>
          routes_loop possible_routes start_id target_id terminus_id
      end
  end.

(** *** Fetching and caching

    The decoded JSON body of a Navitia answer is kept as the object the
    code reads: under a key (["routes"], ["stop_points"]) the list of the
    ["id"] fields of the listed elements. *)
Abbreviation JsonDoc := (gmap string (list string)).

(** What [session.get] brings back: an exception anywhere inside the [try]
    block (connection error, timeout, undecodable body), or a response. *)
Inductive HttpReply :=
| Raised
| Response (status : Z) (json : JsonDoc).

(** The state [get_ordered_stops] works on: the object's cache, and the
    URLs requested so far (oldest first). *)
Record State := {
  _topology_cache : gmap string TopologyTable;
  requests : list string
}.

Section Fetch.

(** The data source: its reply to a URL, given the requests made before. *)
Variable navitia : list string -> string -> HttpReply.

(** [LineTopology._navitia_request] *)
Definition _navitia_request (url : string) (st : State) : option JsonDoc * State :=
  let st' := {| _topology_cache := _topology_cache st;
                requests := requests st ++ [url] |} in
  match navitia (requests st) url with
  | Raised => (None, st')
  | Response status json =>
      if (status =? 200)%Z then (Some json, st') else (None, st')
  end.

Definition routes_url (line_id : string) : string :=
  "https://prim.iledefrance-mobilites.fr/marketplace/v2/navitia/lines/line:IDFM:"
    +:+ line_id +:+ "/routes".

Definition points_url (route_id : string) : string :=
  "https://prim.iledefrance-mobilites.fr/marketplace/v2/navitia/routes/"
    +:+ route_id +:+ "/stop_points".

(** The inner loop [for sp in points_data["stop_points"]]. *)
Fixpoint collect_stops (stop_points : list string) (ordered_stops : list string)
    : list string :=
  match stop_points with
  | [] => ordered_stops
  | sp :: rest =>
      let stop_id := _extract_stif_id sp in
      match stop_id with
      | Some id => if Py.truthy stop_id
                   then collect_stops rest (ordered_stops ++ [id])
                   else collect_stops rest ordered_stops
      | None => collect_stops rest ordered_stops
      end
  end.

(** [topology[terminus].append(ordered_stops)], creating the entry first
    when [terminus not in topology]. *)
Definition add_route (topology : TopologyTable) (ordered_stops : list string)
    : TopologyTable :=
  match Py.item_m1 ordered_stops with
  | None => topology
  | Some terminus =>
      match topology !! terminus with
      | None => <[terminus := [ordered_stops]]> topology
      | Some routes => <[terminus := routes ++ [ordered_stops]]> topology
      end
  end.

(** The outer loop [for route in routes_data["routes"]]. *)
Fixpoint routes_fetch (routes : list string) (topology : TopologyTable) (st : State)
    : TopologyTable * State :=
  match routes with
  | [] => (topology, st)
  | route_id :: rest =>
      let (points_data, st1) := _navitia_request (points_url route_id) st in
      match points_data with
      | Some doc =>
          match doc !! "stop_points" with
          | Some stop_points =>
              routes_fetch rest (add_route topology (collect_stops stop_points [])) st1
          | None => routes_fetch rest topology st1
          end
      | None => routes_fetch rest topology st1
      end
  end.

(** [LineTopology.get_ordered_stops] *)
Definition get_ordered_stops (line_id : string) (st : State) : TopologyTable * State :=
  match _topology_cache st !! line_id with
  | Some cached => (cached, st)
  | None =>
      let (routes_data, st1) := _navitia_request (routes_url line_id) st in
      match routes_data with
      | None => (∅, st1)
      | Some doc =>
          match doc !! "routes" with
          | None => (∅, st1)
          | Some routes =>
              let (topology, st2) := routes_fetch routes ∅ st1 in
              (topology,
               {| _topology_cache := <[line_id := topology]> (_topology_cache st2);
                  requests := requests st2 |})
          end
      end
  end.

End Fetch.

(** [LineTopology.__init__] *)
Definition init : State := {| _topology_cache := ∅; requests := [] |}.

End Topology.


(** ** api_wrapper.py *)

Module ApiWrapper.

(** The exceptions that travel through the wrapper.  [RequestError] is the
    client library's error with its numeric [code]. *)
Inductive Exn :=
| RequestError (code : Z) (message : string)
| IndexError
| ZeroDivisionError
| OtherException (name : string).

Inductive Outcome (A : Type) :=
| Return (a : A)
| Raise (e : Exn).
Arguments Return {A} a.
Arguments Raise {A} e.

(** What an observer sees of a logical call: which credential a remote call
    was made with, and the warning [_rotate_key] logs. *)
Inductive Event :=
| Invoke (index : nat)
| Rotate (old_index new_index : nat).

(** The error raised after the loop: every key was rate limited. *)
Definition AllCredentialsExhausted : Exn :=
  RequestError 429 "All API keys are rate limited.".

Section Wrapper.

(** The client class [IDFMApi] and the remote service it talks to belong
    to the client library. *)
Context {IDFMApi World : Type}.

(** [IDFMApi(session, token.strip(), timeout)] *)
Variable new_client : string -> Z -> IDFMApi.

Record MultiKeyIDFMApi := {
  _tokens : list string;
  _timeout : Z;
  _current_token_index : nat;
  _clients : list IDFMApi
}.

(** [MultiKeyIDFMApi.__init__] *)
Definition init (tokens : list string) (timeout : Z) : MultiKeyIDFMApi :=
  {| _tokens := tokens;
     _timeout := timeout;
     _current_token_index := 0;
     _clients := map (fun token => new_client token timeout) tokens |}.

(** The object, the remote service, and what has been observed so far. *)
Record State := {
  self : MultiKeyIDFMApi;
  remote : World;
  trace : list Event
}.

(** A remote call: given a client, it acts on the service and returns or
    raises. *)
Definition Call (A : Type) := IDFMApi -> World -> Outcome A * World.

(** [func(self._current_client)]: the property [_current_client] indexes
    [_clients], then the call is made with that client. *)
Definition call_current {A} (func : Call A) (st : State) : Outcome A * State :=
  let i := _current_token_index (self st) in
  match _clients (self st) !! i with
  | None => (Raise IndexError, st)
  | Some client =>
      let (r, w) := func client (remote st) in
      (r, {| self := self st; remote := w; trace := trace st ++ [Invoke i] |})
  end.

(** [MultiKeyIDFMApi._rotate_key] *)
Definition _rotate_key (st : State) : Outcome unit * State :=
  let old_index := _current_token_index (self st) in
  match List.length (_tokens (self st)) with
  | O => (Raise ZeroDivisionError, st)
  | S _ as n =>
      let new_index := ((old_index + 1) mod n)%nat in
      (Return tt,
       {| self := {| _tokens := _tokens (self st);
                     _timeout := _timeout (self st);
                     _current_token_index := new_index;
                     _clients := _clients (self st) |};
          remote := remote st;
          trace := trace st ++ [Rotate old_index new_index] |})
  end.

(** The [while attempts < max_attempts] loop of [_call_with_retry]. *)
Equations retry_loop {A} (func : Call A) (max_attempts attempts : nat) (st : State)
    : Outcome A * State by wf (max_attempts - attempts) lt :=
  retry_loop func max_attempts attempts st with lt_dec attempts max_attempts := {
    | right _ => (Raise AllCredentialsExhausted, st)
    | left _ with call_current func st := {
        | (Return a, st1) => (Return a, st1)
        | (Raise (RequestError code message), st1) with (code =? 429)%Z := {
            | true with _rotate_key st1 := {
                | (Return _, st2) => retry_loop func max_attempts (S attempts) st2
                | (Raise e, st2) => (Raise e, st2) }
            | false => (Raise (RequestError code message), st1) }
        | (Raise e, st1) => (Raise e, st1) } }.
Next Obligation. lia. Qed.

(** [MultiKeyIDFMApi._call_with_retry] *)
Definition _call_with_retry {A} (func : Call A) (st : State) : Outcome A * State :=
  retry_loop func (List.length (_tokens (self st))) 0 st.

(** The methods of the client library's [IDFMApi] that the wrapper
    forwards to. *)
Context {TransportType LineData StopData TrafficData InfoData ReportData : Type}.
Variable client_get_lines : option TransportType -> Call (list LineData).
Variable client_get_stops : string -> Call (list StopData).
Variable client_get_traffic :
  string -> option string -> option string -> option string -> Call (list TrafficData).
Variable client_get_destinations :
  string -> option string -> option string -> Call (list string).
Variable client_get_directions : string -> option string -> Call (list string).
Variable client_get_infos : string -> Call (list InfoData).
Variable client_get_line_reports : string -> bool -> Call (list ReportData).

Definition get_lines (transport : option TransportType) (st : State) :=
  call_current (client_get_lines transport) st.

Definition get_stops (line_id : string) (st : State) :=
  call_current (client_get_stops line_id) st.

Definition get_traffic (stop_id : string) (destination_name direction_name line_id : option string)
    (st : State) :=
  _call_with_retry
    (fun client => client_get_traffic stop_id destination_name direction_name line_id client) st.

Definition get_destinations (stop_id : string) (direction_name line_id : option string)
    (st : State) :=
  _call_with_retry
    (fun client => client_get_destinations stop_id direction_name line_id client) st.

Definition get_directions (stop_id : string) (line_id : option string) (st : State) :=
  _call_with_retry (fun client => client_get_directions stop_id line_id client) st.

Definition get_infos (line_id : string) (st : State) :=
  _call_with_retry (fun client => client_get_infos line_id client) st.

Definition get_line_reports (line_id : string) (exclude_elevator : bool) (st : State) :=
  _call_with_retry (fun client => client_get_line_reports line_id exclude_elevator client) st.

End Wrapper.

End ApiWrapper.

(** ** __init__.py *)

Module Coordinator.

(** The transport modes of the client library's [TransportType]; the
    coordinator only asks whether the mode is one of TRAIN, METRO, TRAM. *)
Inductive TransportType := METRO | TRAM | TRAIN | BUS.

Definition is_rail (t : TransportType) : bool :=
  match t with
  | TRAIN | METRO | TRAM => true
  | BUS => false
  end.

(** [IDFMDataUpdateCoordinator._extract_stif_id]; the argument may be
    [None]. *)
Definition _extract_stif_id (full_id : option string) : option string :=
  if Py.truthy full_id
  then match full_id with
       | None => None
       | Some s =>
           match Py.item_m2 (Py.split ":" s) with
           | Some code => Some code
           | None => (* except IndexError *) full_id
           end
       end
  else None.

(** The attributes of the coordinator that the refresh reads. *)
Record IDFMDataUpdateCoordinator := {
  transport_type : TransportType;
  line_id : string;
  stop_area_id : option string;
  direction : option string;
  destination : option string;
  exclude_elevators : bool;
  stop_id_simple : option string;
  destination_simple : option string
}.

(** [IDFMDataUpdateCoordinator.__init__] *)
Definition init (transport_type : TransportType) (line_id : string)
    (stop_area_id direction destination : option string) (exclude_elevators : bool)
    : IDFMDataUpdateCoordinator :=
  {| transport_type := transport_type;
     line_id := line_id;
     stop_area_id := stop_area_id;
     direction := direction;
     destination := destination;
     exclude_elevators := exclude_elevators;
     stop_id_simple := _extract_stif_id stop_area_id;
     destination_simple :=
       if Py.truthy destination then _extract_stif_id destination else None |}.

(** The two clock readings of one refresh: [datetime.now()] (hour and
    minute are read) and [datetime.utcnow()] as a point on the time line. *)
Record Clock := {
  hour : Z;
  minute : Z;
  utcd : Z
}.

(** [self.destination and "STIF:" in self.destination] *)
Definition use_topology (c : IDFMDataUpdateCoordinator) : bool :=
  Py.truthy (destination c) &&
  match destination c with
  | Some d => Py.contains "STIF:" d
  | None => false
  end.

(** The condition under which the refresh runs at all. *)
Definition refresh_due (c : IDFMDataUpdateCoordinator) (d : Clock) : bool :=
  negb (is_rail (transport_type c))
  || (((hour d =? 1) && (minute d <? 30))
      || ((hour d <? 1) || (5 <? hour d))
      || ((hour d =? 5) && (30 <=? minute d)))%Z.

Section Refresh.

(** A departure of the client library, with the two attributes read here. *)
Context {TrafficData ReportData : Type}.
Variable schedule : TrafficData -> option Z.
Variable destination_id : TrafficData -> option string.

(** The provider's answers during this refresh; [None] is a raised
    exception. *)
Variable api_get_traffic :
  option string -> option string -> option string -> string -> option (list TrafficData).
Variable api_get_line_reports : string -> bool -> option (list ReportData).
Variable navitia : list string -> string -> Topology.HttpReply.

(** The [for train in tr] loop of the topology filter. *)
Fixpoint filter_loop (c : IDFMDataUpdateCoordinator) (topo_data : Topology.TopologyTable)
    (tr filtered_tr : list TrafficData) : list TrafficData :=
  match tr with
  | [] => filtered_tr
  | train :: rest =>
      let terminus_id_simple := _extract_stif_id (destination_id train) in
      if Topology.check_stop_on_path topo_data
           (stop_id_simple c) (destination_simple c) terminus_id_simple
      then filter_loop c topo_data rest (filtered_tr ++ [train])
      else filter_loop c topo_data rest filtered_tr
  end.

(** [lambda x: (x.schedule is not None and x.schedule > utcd)] *)
Definition in_future (utcd : Z) (x : TrafficData) : bool :=
  match schedule x with
  | None => false
  | Some t => (utcd <? t)%Z
  end.

(** Sort key; only applied to departures that have a schedule. *)
Definition schedule_key (x : TrafficData) : Z :=
  match schedule x with
  | Some t => t
  | None => 0%Z
  end.

Record Data := {
  DATA_TRAFFIC : list TrafficData;
  DATA_INFO : list ReportData
}.

(** How [_async_update_data] ends: with the dictionary, with nothing
    (the refresh is skipped and the function falls off its end), or with
    [UpdateFailed]. *)
Inductive Result :=
| Updated (data : Data)
| Skipped
| UpdateFailed.

(** The list handed to the time filter: [tr] after the topology pass,
    when that pass applies. *)
Definition topology_pass (c : IDFMDataUpdateCoordinator) (tr : list TrafficData)
    (topo : Topology.State) : list TrafficData * Topology.State :=
  if use_topology c && Py.truthy (destination_simple c)
  then
    let (topo_data, topo') := Topology.get_ordered_stops navitia (line_id c) topo in
    (filter_loop c topo_data tr [], topo')
  else (tr, topo).

(** [IDFMDataUpdateCoordinator._async_update_data] *)
Definition _async_update_data (c : IDFMDataUpdateCoordinator) (d : Clock)
    (topo : Topology.State) : Result * Topology.State :=
  if refresh_due c d then
    let req_destination := if use_topology c then None else destination c in
    let req_direction := if use_topology c then None else direction c in
    match api_get_traffic (stop_area_id c) req_destination req_direction (line_id c) with
    | None => (UpdateFailed, topo)
    | Some tr =>
        let (tr', topo') := topology_pass c tr topo in
        let sorted_tr := Py.sorted schedule_key (List.filter (in_future (utcd d)) tr') in
        match api_get_line_reports (line_id c) (exclude_elevators c) with
        | None => (UpdateFailed, topo')
        | Some inf => (Updated {| DATA_TRAFFIC := sorted_tr; DATA_INFO := inf |}, topo')
        end
    end
  else (Skipped, topo).

End Refresh.

End Coordinator.

(** ** __init__.py: the set-up of the coordinator *)

Module Setup.
Import Coordinator.

(** What [async_setup_entry] reads from [entry.data]; [None] is what [get]
    returns for a key that is missing or holds [None]. *)
Record EntryData := {
  CONF_TRANSPORT : TransportType;
  CONF_LINE : string;
  CONF_DIRECTION : option string;
  CONF_DESTINATION : option string;
  CONF_STOP : option string;
  CONF_EXCLUDE_ELEVATORS : option bool
}.

(** [x or y] for a stored boolean [x]: [x] itself when it is true, else
    [y]. *)
Definition py_or (x : option bool) (y : bool) : bool :=
  match x with
  | Some true => true
  | Some false | None => y
  end.

(** The coordinator [async_setup_entry] constructs. *)
Definition coordinator_of_entry (data : EntryData) : IDFMDataUpdateCoordinator :=
  let transport_type := CONF_TRANSPORT data in
  let line_id := CONF_LINE data in
  let direction := CONF_DIRECTION data in
  let destination := CONF_DESTINATION data in
  let stop_area_id := CONF_STOP data in
  let exclude_elevators := py_or (CONF_EXCLUDE_ELEVATORS data) true in
  init transport_type line_id stop_area_id direction destination exclude_elevators.

End Setup.

(** ** topology.py on arbitrary JSON answers

    [Topology] keeps the ids of an answer as strings.  Here the body of an
    answer is any decoded JSON value, and the exceptions that the code does
    not catch travel out of [get_ordered_stops]. *)

Module TopologyRaw.
Import Topology.

(** A decoded JSON value.  Of a number the code only uses whether it is zero
    and how it prints; the keys of an object are distinct. *)
#[local] Unset Elimination Schemes.
Inductive Json :=
| JNull
| JBool (b : bool)
| JNum (is_zero : bool) (printed : string)
| JStr (s : string)
| JArr (items : list Json)
| JObj (fields : list (string * Json)).
#[local] Set Elimination Schemes.

Inductive Exn := TypeError | KeyError.

Inductive Res (A : Type) :=
| Ok (a : A)
| Raise (e : Exn).
Arguments Ok {A} a.
Arguments Raise {A} e.

(** Truth value: [None], [False], zero and the empty string, list and
    dictionary are false. *)
Definition truthy (v : Json) : bool :=
  match v with
  | JNull => false
  | JBool b => b
  | JNum is_zero _ => negb is_zero
  | JStr EmptyString => false
  | JStr (String _ _) => true
  | JArr [] => false
  | JArr (_ :: _) => true
  | JObj [] => false
  | JObj (_ :: _) => true
  end.

Definition is_str (key : string) (v : Json) : bool :=
  match v with
  | JStr s => String.eqb s key
  | _ => false
  end.

(** [key in v] for a string [key]: substring of a string, element of a
    list, key of a dictionary; [None], booleans and numbers are not
    iterable. *)
Definition contains (key : string) (v : Json) : Res bool :=
  match v with
  | JStr s => Ok (Py.contains key s)
  | JArr items => Ok (existsb (is_str key) items)
  | JObj fields => Ok (existsb (fun kv => String.eqb (fst kv) key) fields)
  | JNull | JBool _ | JNum _ _ => Raise TypeError
  end.

Fixpoint lookup_field (key : string) (fields : list (string * Json)) : option Json :=
  match fields with
  | [] => None
  | (k, v) :: rest => if String.eqb k key then Some v else lookup_field key rest
  end.

(** [v[key]] for a string [key]: only a dictionary can be subscripted with
    a string. *)
Definition subscript (key : string) (v : Json) : Res Json :=
  match v with
  | JObj fields =>
      match lookup_field key fields with
      | Some x => Ok x
      | None => Raise KeyError
      end
  | _ => Raise TypeError
  end.

(** [for x in v]: the elements of a list, the keys of a dictionary, the
    characters of a string. *)
Definition iterate (v : Json) : Res (list Json) :=
  match v with
  | JArr items => Ok items
  | JObj fields => Ok (map (fun kv => JStr (fst kv)) fields)
  | JStr s => Ok (map (fun c => JStr (String c EmptyString)) (list_ascii_of_string s))
  | JNull | JBool _ | JNum _ _ => Raise TypeError
  end.

(** [LineTopology._extract_stif_id] on any value: the [TypeError] of the
    [in] test is not among the exceptions the function catches; the
    [AttributeError] of a missing [split] is. *)
Definition _extract_stif_id (navitia_id : Json) : Res (option string) :=
  match contains "IDFM:" navitia_id with
  | Raise e => Raise e
  | Ok has_marker =>
      match navitia_id with
      | JStr s =>
          Ok match (if has_marker then Py.item1 (Py.split "IDFM:" s) else Some s) with
             | None => None
             | Some stif_part => Py.item_m2 (Py.split ":" stif_part)
             end
      | _ => (* except AttributeError *) Ok None
      end
  end.

(** What [session.get] brings back. *)
Inductive RawReply :=
| RawRaised
| RawResponse (status : Z) (json : Json).

(** The inner loop [for sp in points_data["stop_points"]]. *)
Fixpoint collect_stops (stop_points : list Json) (ordered_stops : list string)
    : Res (list string) :=
  match stop_points with
  | [] => Ok ordered_stops
  | sp :: rest =>
      match subscript "id" sp with
      | Raise e => Raise e
      | Ok id =>
          match _extract_stif_id id with
          | Raise e => Raise e
          | Ok stop_id =>
              match stop_id with
              | Some s => if Py.truthy stop_id
                          then collect_stops rest (ordered_stops ++ [s])
                          else collect_stops rest ordered_stops
              | None => collect_stops rest ordered_stops
              end
          end
      end
  end.

Section Fetch.

(** Python's [str] of a list or dictionary, for an id that is one. *)
Variable py_repr : Json -> string.

(** The data source: its reply to a URL, given the requests made before. *)
Variable navitia : list string -> string -> RawReply.

(** [f"{route_id}"] *)
Definition format (v : Json) : string :=
  match v with
  | JStr s => s
  | JNull => "None"
  | JBool true => "True"
  | JBool false => "False"
  | JNum _ printed => printed
  | JArr _ | JObj _ => py_repr v
  end.

(** [LineTopology._navitia_request]; [JNull] is Python's [None]. *)
Definition _navitia_request (url : string) (st : State) : Json * State :=
  let st' := {| _topology_cache := _topology_cache st;
                requests := requests st ++ [url] |} in
  match navitia (requests st) url with
  | RawRaised => (JNull, st')
  | RawResponse status json =>
      if (status =? 200)%Z then (json, st') else (JNull, st')
  end.

(** The body of the outer loop after the stop points request, for a truthy
    answer. *)
Definition add_points (points_data : Json) (topology : TopologyTable)
    : Res TopologyTable :=
  match contains "stop_points" points_data with
  | Raise e => Raise e
  | Ok false => Ok topology
  | Ok true =>
      match subscript "stop_points" points_data with
      | Raise e => Raise e
      | Ok value =>
          match iterate value with
          | Raise e => Raise e
          | Ok stop_points =>
              match collect_stops stop_points [] with
              | Raise e => Raise e
              | Ok ordered_stops => Ok (add_route topology ordered_stops)
              end
          end
      end
  end.

(** The outer loop [for route in routes_data["routes"]]. *)
Fixpoint routes_fetch (routes : list Json) (topology : TopologyTable) (st : State)
    : Res TopologyTable * State :=
  match routes with
  | [] => (Ok topology, st)
  | route :: rest =>
      match subscript "id" route with
      | Raise e => (Raise e, st)
      | Ok route_id =>
          let (points_data, st1) := _navitia_request (points_url (format route_id)) st in
          if truthy points_data
          then match add_points points_data topology with
               | Raise e => (Raise e, st1)
               | Ok topology' => routes_fetch rest topology' st1
               end
          else routes_fetch rest topology st1
      end
  end.

(** [LineTopology.get_ordered_stops] *)
Definition get_ordered_stops (line_id : string) (st : State) : Res TopologyTable * State :=
  match _topology_cache st !! line_id with
  | Some cached => (Ok cached, st)
  | None =>
      let (routes_data, st1) := _navitia_request (routes_url line_id) st in
      if truthy routes_data
      then match contains "routes" routes_data with
           | Raise e => (Raise e, st1)
           | Ok false => (Ok ∅, st1)
           | Ok true =>
               match subscript "routes" routes_data with
               | Raise e => (Raise e, st1)
               | Ok value =>
                   match iterate value with
                   | Raise e => (Raise e, st1)
                   | Ok routes =>
                       match routes_fetch routes ∅ st1 with
                       | (Raise e, st2) => (Raise e, st2)
                       | (Ok topology, st2) =>
                           (Ok topology,
                            {| _topology_cache :=
                                 <[line_id := topology]> (_topology_cache st2);
                               requests := requests st2 |})
                       end
                   end
               end
           end
      else (Ok ∅, st1)
  end.

End Fetch.

(** *** Answers whose ids are strings *)

(** A list of objects with the given string ids. *)
Definition lift_ids (ids : list string) : Json :=
  JArr (map (fun id => JObj [("id", JStr id)]) ids).

(** The body that [Topology] abbreviates to a [JsonDoc]. *)
Definition lift_doc (doc : JsonDoc) : Json :=
  JObj (match doc !! "routes" with
        | Some ids => [("routes", lift_ids ids)]
        | None => []
        end ++
        match doc !! "stop_points" with
        | Some ids => [("stop_points", lift_ids ids)]
        | None => []
        end).

Definition lift_reply (reply : HttpReply) : RawReply :=
  match reply with
  | Raised => RawRaised
  | Response status json => RawResponse status (lift_doc json)
  end.

Definition lift (navitia : list string -> string -> HttpReply)
    : list string -> string -> RawReply :=
  fun log url => lift_reply (navitia log url).

(** The ids an iteration over [routes] reads, while every element has
    one. *)
Fixpoint route_ids (routes : list Json) : list Json :=
  match routes with
  | [] => []
  | route :: rest =>
      match subscript "id" route with
      | Ok id => id :: route_ids rest
      | Raise _ => []
      end
  end.

(** A data source that serves line ["L"] with one route, one of whose stop
    points has a null id. *)
Definition source_null_id : list string -> string -> RawReply :=
  fun _ url =>
    if String.eqb url (routes_url "L")
    then RawResponse 200 (JObj [("routes", JArr [JObj [("id", JStr "route:IDFM:L:1")]])])
    else RawResponse 200
           (JObj [("stop_points",
                   JArr [JObj [("id", JStr "stop_point:IDFM:STIF:StopPoint:Q:100:")];
                         JObj [("id", JNull)]])]).

End TopologyRaw.

(** ** Vocabulary of the properties *)

Module Spec.
Import Py Topology.

(** Position [i] holds the first occurrence of the identifier [x] in
    [route]; an absent identifier occurs nowhere. *)
Definition first_at (route : list string) (x : option string) (i : nat) : Prop :=
  exists s, x = Some s /\ route !! i = Some s /\ forall j, j < i -> route !! j <> Some s.

(** The identifier [x] occurs in [route]. *)
Definition occurs (route : list string) (x : option string) : Prop :=
  exists s, x = Some s /\ s ∈ route.

(** [route] contains the three identifiers, with the first occurrence of
    [start_id] strictly before the one of [target_id], itself not after
    the one of [terminus_id]. *)
Definition serves (route : list string) (start_id target_id terminus_id : option string)
    : Prop :=
  exists i j k,
    first_at route start_id i /\ first_at route target_id j /\
    first_at route terminus_id k /\ i < j <= k.

(** [terminus_id] is a key of the table. *)
Definition is_key (topology : TopologyTable) (terminus_id : option string) : Prop :=
  exists t, terminus_id = Some t /\ is_Some (topology !! t).

(** The scenario of the specification: one route 100, 200, 300, 400. *)
Definition line_L : TopologyTable := {[ "400" := [["100"; "200"; "300"; "400"]] ]}.

(** [":" not in s] *)
Definition colon_free (s : string) : Prop := contains ":" s = false.

(** The composite identifier [A:B:C:CODE:]. *)
Definition composite (A B C CODE : string) : string :=
  A +:+ ":" +:+ B +:+ ":" +:+ C +:+ ":" +:+ CODE +:+ ":".

End Spec.

Module RotatorSpec.
Import ApiWrapper.

(** The indices of the credentials a trace shows remote calls with. *)
Fixpoint invocations (events : list Event) : list nat :=
  match events with
  | [] => []
  | Invoke i :: rest => i :: invocations rest
  | Rotate _ _ :: rest => invocations rest
  end.

(** What [n] rate-limited attempts starting at credential [i] leave in the
    trace of a pool of [N] credentials. *)
Fixpoint sweep (N i n : nat) : list Event :=
  match n with
  | O => []
  | S n' => Invoke i :: Rotate i ((i + 1) mod N) :: sweep N ((i + 1) mod N) n'
  end.

(** An error that is not the rate-limit signal. *)
Definition not_rate_limit (e : Exn) : Prop :=
  forall message, e <> RequestError 429 message.

Section Pool.
Context {IDFMApi World : Type}.

(** The object is as its constructor and [_rotate_key] leave it: one client
    per token, and the active index inside the pool. *)
Definition consistent (m : @MultiKeyIDFMApi IDFMApi) : Prop :=
  List.length (_clients m) = List.length (_tokens m)
  /\ (_current_token_index m < List.length (_tokens m) \/ _tokens m = []).

(** The state after one remote call that changed the service to [w]. *)
Definition invoked (st : @State IDFMApi World) (w : World) : State :=
  {| self := self st; remote := w;
     trace := trace st ++ [Invoke (_current_token_index (self st))] |}.

(** The state after moving the active index to [j]. *)
Definition rotated (st : @State IDFMApi World) (j : nat) : State :=
  {| self := {| _tokens := _tokens (self st);
                _timeout := _timeout (self st);
                _current_token_index := j;
                _clients := _clients (self st) |};
     remote := remote st;
     trace := trace st ++ [Rotate (_current_token_index (self st)) j] |}.

(** A fresh wrapper in front of the service in state [w]. *)
Definition fresh (new_client : string -> Z -> IDFMApi) (tokens : list string)
    (timeout : Z) (w : World) : State :=
  {| self := init new_client tokens timeout; remote := w; trace := [] |}.

End Pool.

(** Concrete pools for the examples: a client is its token, the service has
    no state of its own. *)
Definition token_client (token : string) (timeout : Z) : string := token.

(** Every credential is rate limited. *)
Definition always_limited {A : Type} : @Call string unit A :=
  fun client w => (Raise (RequestError 429 "Too Many Requests"), w).

(** Only the credential ["key-B"] is served. *)
Definition only_key_B : @Call string unit Z :=
  fun client w =>
    if String.eqb client "key-B" then (Return 7%Z, w)
    else (Raise (RequestError 429 "Too Many Requests"), w).

(** The service is down for everybody. *)
Definition unavailable : @Call string unit Z :=
  fun client w => (Raise (RequestError 503 "Service Unavailable"), w).

End RotatorSpec.

Module CacheSpec.
Import Topology.

(** The routes request failed: an exception in the request, a status other
    than 200, or a body without the ["routes"] key. *)
Definition fetch_failed (reply : HttpReply) : bool :=
  match reply with
  | Raised => true
  | Response status json =>
      negb (status =? 200)%Z ||
      match json !! "routes" with
      | None => true
      | Some _ => false
      end
  end.

(** What can be asked of a [LineTopology] object. *)
Inductive Operation :=
| GetOrderedStops (line_id : string)
| NavitiaRequest (url : string)
| ExtractStifId (navitia_id : string)
| CheckStopOnPath (topology : TopologyTable) (start_id target_id terminus_id : option string).

(** The state an operation leaves. *)
Definition perform (navitia : list string -> string -> HttpReply) (op : Operation)
    (st : State) : State :=
  match op with
  | GetOrderedStops line_id => snd (get_ordered_stops navitia line_id st)
  | NavitiaRequest url => snd (_navitia_request navitia url st)
  | ExtractStifId _ => st
  | CheckStopOnPath _ _ _ _ => st
  end.

(** The state a sequence of operations leaves. *)
Definition perform_all (navitia : list string -> string -> HttpReply)
    (ops : list Operation) (st : State) : State :=
  fold_left (fun st op => perform navitia op st) ops st.

(** A data source that is down, and one that serves line ["L"] with a single
    route. *)
Definition source_down : list string -> string -> HttpReply :=
  fun _ _ => Response 503 ∅.

Definition source_line_L : list string -> string -> HttpReply :=
  fun _ url =>
    if String.eqb url (routes_url "L")
    then Response 200 {[ "routes" := ["route:IDFM:L:1"] ]}
    else if String.eqb url (points_url "route:IDFM:L:1")
    then Response 200 {[ "stop_points" :=
           ["stop_point:IDFM:STIF:StopPoint:Q:100:"; "stop_point:IDFM:STIF:StopPoint:Q:200:";
            "stop_point:IDFM:STIF:StopPoint:Q:300:"; "stop_point:IDFM:STIF:StopPoint:Q:400:"] ]}
    else Response 404 ∅.

End CacheSpec.

Module RefreshSpec.
Import Coordinator.

(** [x] is scheduled, and [y] is scheduled no earlier. *)
Definition not_later {TrafficData : Type} (schedule : TrafficData -> option Z)
    (x y : TrafficData) : Prop :=
  match schedule x, schedule y with
  | Some tx, Some ty => (tx <= ty)%Z
  | _, _ => False
  end.

(** A departure of the examples. *)
Record Departure := {
  dep_name : string;
  dep_schedule : option Z;
  dep_destination_id : option string
}.

Definition dep_A := {| dep_name := "A"; dep_schedule := Some 1500%Z;
                       dep_destination_id := Some "STIF:StopPoint:Q:400:" |}.
Definition dep_B := {| dep_name := "B"; dep_schedule := Some 1200%Z;
                       dep_destination_id := Some "STIF:StopPoint:Q:400:" |}.
Definition dep_C := {| dep_name := "C"; dep_schedule := Some 900%Z;
                       dep_destination_id := Some "STIF:StopPoint:Q:400:" |}.
Definition dep_D := {| dep_name := "D"; dep_schedule := None;
                       dep_destination_id := Some "STIF:StopPoint:Q:400:" |}.
Definition dep_E := {| dep_name := "E"; dep_schedule := Some 1300%Z;
                       dep_destination_id := Some "STIF:StopPoint:Q:250:" |}.

(** The coordinator of the scenario: boarding at 200, alighting at 300. *)
Definition at_200_to_300 : IDFMDataUpdateCoordinator :=
  init BUS "L" (Some "STIF:StopPoint:Q:200:") None (Some "STIF:StopPoint:Q:300:") true.

Definition noon : Clock := {| hour := 12; minute := 0; utcd := 1000 |}.

Definition traffic_now (stop_id req_destination req_direction : option string)
    (line_id : string) : option (list Departure) :=
  Some [dep_A; dep_B; dep_C; dep_D; dep_E].

Definition no_reports (line_id : string) (exclude_elevators : bool) : option (list string) :=
  Some [].

End RefreshSpec.

Module RotatorMoreSpec.
Import ApiWrapper RotatorSpec.

(** The outcome is the rate-limit signal the loop reacts to. *)
Definition rate_limited {A : Type} (r : Outcome A) : bool :=
  match r with
  | Raise (RequestError code _) => (code =? 429)%Z
  | _ => false
  end.

(** The active index after [k] rotations in a pool of [N] credentials. *)
Definition rotate_times (N k i : nat) : nat := Nat.iter k (fun i => (i + 1) mod N) i.

Section Calls.
Context {IDFMApi World A : Type}.

(** The state after a sequence of logical calls. *)
Definition logical_calls (funcs : list (@Call IDFMApi World A)) (st : @State IDFMApi World)
    : State :=
  fold_left (fun st func => snd (_call_with_retry func st)) funcs st.

(** The state after [k] calls of [_rotate_key]. *)
Definition rotate_n (k : nat) (st : @State IDFMApi World) : State :=
  Nat.iter k (fun st => snd (_rotate_key st)) st.

End Calls.

(** Credentials ["key-A"] and ["key-B"] are rate limited, the others are
    served. *)
Definition third_key_on : @Call string unit Z :=
  fun client w =>
    if String.eqb client "key-A" || String.eqb client "key-B"
    then (Raise (RequestError 429 "Too Many Requests"), w)
    else (Return 7%Z, w).

End RotatorMoreSpec.

Module CacheMoreSpec.
Import Py Topology Spec.

(** A stop as the resolver stores it: a non-empty identifier without
    colon. *)
Definition stop_ok (s : string) : Prop := s <> "" /\ colon_free s.

(** Every key of the table holds at least one route, and each route stored
    under a key ends at that key and consists of proper stops. *)
Definition well_formed (table : TopologyTable) : Prop :=
  forall t routes,
    table !! t = Some routes ->
    routes <> [] /\ Forall (fun route => last route = Some t /\ Forall stop_ok route) routes.

Definition cache_well_formed (st : State) : Prop :=
  forall line_id table, _topology_cache st !! line_id = Some table -> well_formed table.


(** The route ends at [t]. *)
Definition ends_at (t : string) (route : list string) : bool :=
  match last route with
  | Some x => String.eqb x t
  | None => false
  end.


End CacheMoreSpec.

Module RefreshMoreSpec.
Import Coordinator.

(** The departure is scheduled at [t]. *)
Definition scheduled_at {TrafficData : Type} (schedule : TrafficData -> option Z)
    (t : Z) (x : TrafficData) : bool :=
  match schedule x with
  | Some u => (u =? t)%Z
  | None => false
  end.

(** The clock reads a time from 01:30 on and before 05:30. *)
Definition night_break (d : Clock) : Prop :=
  (90 <= 60 * hour d + minute d < 330)%Z.

(** An entry that asks for elevator reports, and a clock in the night. *)
Definition entry_with_elevators : Setup.EntryData :=
  {| Setup.CONF_TRANSPORT := BUS;
     Setup.CONF_LINE := "L";
     Setup.CONF_DIRECTION := None;
     Setup.CONF_DESTINATION := Some "STIF:StopPoint:Q:300:";
     Setup.CONF_STOP := Some "STIF:StopPoint:Q:200:";
     Setup.CONF_EXCLUDE_ELEVATORS := Some false |}.

Definition metro_at_200 : IDFMDataUpdateCoordinator :=
  init METRO "L" (Some "STIF:StopPoint:Q:200:") None (Some "Nation") true.

Definition three_am : Clock := {| hour := 3; minute := 10; utcd := 1000 |}.

(** Reports that differ only in what is answered when elevators are asked
    for. *)
Definition reports_a (line_id : string) (exclude_elevators : bool) : option (list string) :=
  if exclude_elevators then Some ["works"] else Some ["works"; "elevator"].

Definition reports_b (line_id : string) (exclude_elevators : bool) : option (list string) :=
  if exclude_elevators then Some ["works"] else None.

End RefreshMoreSpec.

(** * Properties *)

(** ** Facts about the built-ins *)

Module PyFacts.
Import Py Spec.

Lemma index_from_Some l x k i :
  index_from l x k = Some i <->
  k <= i /\ l !! (i - k) = Some x /\ forall j, j < i - k -> l !! j <> Some x.
Proof.
  revert k i. induction l as [|y l IH]; intros k i; simpl.
  - split; [discriminate | intros (_ & H & _); discriminate].
  - destruct (String.eqb_spec y x) as [->|Hne].
    + split.
      * intros [= <-]. rewrite Nat.sub_diag. repeat split; auto. intros j Hj; lia.
      * intros (Hk & Hi & Hfirst).
        destruct (i - k) as [|n] eqn:E; [f_equal; lia|].
        exfalso. apply (Hfirst 0); [lia | reflexivity].
    + rewrite IH. split.
      * intros (Hk & Hi & Hfirst).
        replace (i - k) with (S (i - S k)) by lia.
        repeat split; [lia | exact Hi |].
        intros [|j] Hj; simpl; [congruence | apply Hfirst; lia].
      * intros (Hk & Hi & Hfirst).
        destruct (i - k) as [|n] eqn:E; simpl in Hi; [congruence|].
        replace (i - S k) with n by lia.
        repeat split; [lia | exact Hi |].
        intros j Hj. apply (Hfirst (S j)). lia.
Qed.

Lemma index_first_at route x i : index route x = Some i <-> first_at route x i.
Proof.
  unfold index, first_at. destruct x as [s|].
  - rewrite index_from_Some, Nat.sub_0_r. split.
    + intros (_ & H1 & H2). exists s. auto.
    + intros (s' & [= <-] & H1 & H2). repeat split; auto. lia.
  - split; [discriminate | intros (s & H & _); discriminate].
Qed.

Lemma index_from_None l x k : index_from l x k = None <-> x ∉ l.
Proof.
  revert k. induction l as [|y l IH]; intros k; simpl.
  - split; [intros _; apply not_elem_of_nil | reflexivity].
  - destruct (String.eqb_spec y x) as [->|Hne].
    + split; [discriminate | intros H; exfalso; apply H; left].
    + rewrite IH, not_elem_of_cons. split; [auto | intros [_ H]; exact H].
Qed.

Lemma index_None route x : index route x = None <-> ~ occurs route x.
Proof.
  unfold index, occurs. destruct x as [s|].
  - rewrite index_from_None. split.
    + intros H (s' & [= <-] & Hin). auto.
    + intros H Hin. apply H. eauto.
  - split; [intros _ (s & H & _); discriminate | reflexivity].
Qed.

Lemma index_is_Some route x : is_Some (index route x) <-> occurs route x.
Proof.
  destruct (index route x) as [i|] eqn:E.
  - split; [intros _ | eauto].
    apply index_first_at in E. destruct E as (s & -> & Hi & _).
    exists s. split; [reflexivity | eapply list_elem_of_lookup_2; eauto].
  - apply index_None in E. split; [intros [? [=]] | intros H; contradiction].
Qed.

End PyFacts.

(** ** The path check *)

Module PathCheck.
Import Py Spec PyFacts Topology.

Lemma route_try_true route a b t : route_try route a b t = Some true <-> serves route a b t.
Proof.
  unfold route_try, serves. split.
  - destruct (index route a) as [i|] eqn:Ea; [|discriminate].
    destruct (index route b) as [j|] eqn:Eb; [|discriminate].
    destruct (index route t) as [k|] eqn:Et; [|discriminate].
    intros [= H]. apply andb_true_iff in H as [H1 H2].
    apply Nat.ltb_lt in H1. apply Nat.leb_le in H2.
    exists i, j, k. rewrite <- !index_first_at. auto.
  - intros (i & j & k & Ha & Hb & Ht & Hij & Hjk).
    apply index_first_at in Ha, Hb, Ht. rewrite Ha, Hb, Ht.
    f_equal. apply andb_true_iff. split; [apply Nat.ltb_lt | apply Nat.leb_le]; lia.
Qed.

Lemma route_try_skip route a b t :
  ~ occurs route a \/ ~ occurs route b -> route_try route a b t = None.
Proof.
  unfold route_try. intros [H|H]; apply index_None in H.
  - now rewrite H.
  - rewrite H. now destruct (index route a).
Qed.

Lemma routes_loop_true routes a b t :
  routes_loop routes a b t = true <-> exists route, route ∈ routes /\ serves route a b t.
Proof.
  induction routes as [|route rest IH]; simpl.
  - split; [discriminate | intros (r & Hr & _); inversion Hr].
  - destruct (route_try route a b t) as [[|]|] eqn:E.
    + split; [intros _ | reflexivity].
      exists route. split; [left | now apply route_try_true].
    + rewrite IH. split.
      * intros (r & Hr & Hs). exists r. split; [now right | exact Hs].
      * intros (r & Hr & Hs). apply elem_of_cons in Hr as [->|Hr]; [|eauto].
        apply route_try_true in Hs. congruence.
    + rewrite IH. split.
      * intros (r & Hr & Hs). exists r. split; [now right | exact Hs].
      * intros (r & Hr & Hs). apply elem_of_cons in Hr as [->|Hr]; [|eauto].
        apply route_try_true in Hs. congruence.
Qed.

(** The answer is true exactly when a route stored under the terminus
    serves the pair. *)
Lemma check_true_iff (topology : TopologyTable)
    (start_id target_id terminus_id : option string) :
  check_stop_on_path topology start_id target_id terminus_id = true <->
  exists t routes route,
    terminus_id = Some t /\ topology !! t = Some routes /\ route ∈ routes /\
    serves route start_id target_id terminus_id.
Proof.
  unfold check_stop_on_path. split.
  - destruct terminus_id as [t|]; [|discriminate].
    destruct (topology !! t) as [routes|] eqn:E; [|discriminate].
    intros H. apply routes_loop_true in H as (route & Hin & Hs).
    exists t, routes, route. auto.
  - intros (t & routes & route & -> & -> & Hin & Hs).
    apply routes_loop_true. eauto.
Qed.

(** C1.  [check_stop_on_path] answers true exactly when the terminus is a
    key of the table and one of the routes stored under it contains start,
    target and terminus with index(start) < index(target) <= index(terminus);
    it answers false whenever the terminus is not a key; and a route that
    lacks the start or the target is passed over, the answer being the one
    for the remaining routes. *)
Theorem check_stop_on_path_spec (topology : TopologyTable)
    (start_id target_id terminus_id : option string) :
  (check_stop_on_path topology start_id target_id terminus_id = true <->
     exists t routes route,
       terminus_id = Some t /\ topology !! t = Some routes /\ route ∈ routes /\
       serves route start_id target_id terminus_id)
  /\ (~ is_key topology terminus_id ->
      check_stop_on_path topology start_id target_id terminus_id = false)
  /\ (forall t route rest,
        terminus_id = Some t -> topology !! t = Some (route :: rest) ->
        ~ occurs route start_id \/ ~ occurs route target_id ->
        check_stop_on_path topology start_id target_id terminus_id
        = routes_loop rest start_id target_id terminus_id).
Proof.
  split; [apply check_true_iff|]. unfold check_stop_on_path. split.
  - intros Hkey. destruct terminus_id as [t|]; [|reflexivity].
    destruct (topology !! t) as [routes|] eqn:E; [|reflexivity].
    exfalso. apply Hkey. exists t. rewrite E. eauto.
  - intros t route rest -> -> Hmiss. simpl.
    now rewrite (route_try_skip _ _ _ _ Hmiss).
Qed.

Example scenario_retained :
  check_stop_on_path line_L (Some "200") (Some "300") (Some "400") = true.
Proof. reflexivity. Qed.

Example scenario_discarded :
  check_stop_on_path line_L (Some "200") (Some "300") (Some "250") = false.
Proof. reflexivity. Qed.

End PathCheck.

(** ** The path check along one route *)

Module RouteOrder.
Import Py Spec PyFacts Topology PathCheck.

Lemma first_at_NoDup (route : list string) (i : nat) (s : string) :
  NoDup route -> route !! i = Some s -> first_at route (Some s) i.
Proof.
  intros Hnd Hi. exists s. repeat split; auto.
  intros j Hj Hlook. pose proof (NoDup_lookup _ _ _ _ Hnd Hi Hlook). lia.
Qed.

Lemma first_at_unique route x i j : first_at route x i -> first_at route x j -> i = j.
Proof.
  intros Hi Hj. apply index_first_at in Hi, Hj. congruence.
Qed.

Lemma last_position (route : list string) (t : string) (j : nat) (s : string) :
  last route = Some t -> route !! j = Some s ->
  route !! (List.length route - 1) = Some t /\ j <= List.length route - 1.
Proof.
  intros Hlast Hj. rewrite last_lookup in Hlast.
  apply lookup_lt_Some in Hj.
  replace (List.length route - 1) with (Init.Nat.pred (List.length route)) by lia.
  split; [exact Hlast | lia].
Qed.

(** On a route without repeated stops, the route serves the pair exactly
    when the start comes strictly first. *)
Lemma serves_NoDup (route : list string) (t si sj : string) (i j : nat) :
  NoDup route -> last route = Some t ->
  route !! i = Some si -> route !! j = Some sj ->
  serves route (Some si) (Some sj) (Some t) <-> i < j.
Proof.
  intros Hnd Hlast Hi Hj.
  destruct (last_position _ _ _ _ Hlast Hj) as [Ht Hle].
  pose proof (first_at_NoDup _ _ _ Hnd Hi) as Fi.
  pose proof (first_at_NoDup _ _ _ Hnd Hj) as Fj.
  pose proof (first_at_NoDup _ _ _ Hnd Ht) as Ft.
  split.
  - intros (i' & j' & k' & Fi' & Fj' & _ & Hlt & _).
    rewrite (first_at_unique _ _ _ _ Fi Fi'), (first_at_unique _ _ _ _ Fj Fj'). exact Hlt.
  - intros Hlt. exists i, j, (List.length route - 1). repeat split; auto.
Qed.

(** C4, as the specification words it, fails for a stop paired with itself:
    on the route 100, 200, 300, 400 stored under 400, positions i = j = 1
    give start = target = 200, and the answer is false. *)
Lemma same_stop_not_on_path :
  line_L !! "400" = Some [["100"; "200"; "300"; "400"]] /\
  ["100"; "200"; "300"; "400"] !! 1 = Some "200" /\
  1 <= 1 /\
  check_stop_on_path line_L (Some "200") (Some "200") (Some "400") = false.
Proof. repeat split; reflexivity || lia. Qed.

(** Two more ways the wording fails: a later stop of one route may precede
    an earlier one on a second route with the same terminus, and a repeated
    stop is located at its first occurrence. *)
Example other_route_serves :
  check_stop_on_path {[ "T" := [["a"; "b"; "T"]; ["b"; "a"; "T"]] ]}
    (Some "b") (Some "a") (Some "T") = true.
Proof. reflexivity. Qed.

Example repeated_stop_first_occurrence :
  check_stop_on_path {[ "T" := [["a"; "b"; "a"; "T"]] ]} (Some "a") (Some "b") (Some "T") = true
  /\ check_stop_on_path {[ "T" := [["T"; "a"; "b"; "T"]] ]} (Some "a") (Some "b") (Some "T") = false.
Proof. split; reflexivity. Qed.

(** C4, amended.  For a route without repeated stops stored under its last
    stop: the stop at position [i] and the stop at position [j] are on the
    path when i < j; when i >= j the route itself does not serve the pair,
    so the answer is false if no other route under that terminus does, in
    particular if the route is the only one stored there. *)
Theorem on_path_along_route (topology : TopologyTable) (routes : list (list string))
    (route : list string) (t si sj : string) (i j : nat) :
  NoDup route -> last route = Some t ->
  topology !! t = Some routes -> route ∈ routes ->
  route !! i = Some si -> route !! j = Some sj ->
  (i < j -> check_stop_on_path topology (Some si) (Some sj) (Some t) = true)
  /\ (j <= i ->
      (forall other, other ∈ routes -> other <> route ->
                     ~ serves other (Some si) (Some sj) (Some t)) ->
      check_stop_on_path topology (Some si) (Some sj) (Some t) = false)
  /\ (j <= i -> routes = [route] ->
      check_stop_on_path topology (Some si) (Some sj) (Some t) = false).
Proof.
  intros Hnd Hlast Htab Hin Hi Hj.
  pose proof (serves_NoDup _ _ _ _ _ _ Hnd Hlast Hi Hj) as Hserves.
  assert (Hfalse : j <= i ->
      (forall other, other ∈ routes -> other <> route ->
                     ~ serves other (Some si) (Some sj) (Some t)) ->
      check_stop_on_path topology (Some si) (Some sj) (Some t) = false).
  { intros Hge Hothers. apply not_true_is_false. intros Htrue.
    apply check_true_iff in Htrue
      as (t' & routes' & r & [= <-] & Htab' & Hr & Hs).
    rewrite Htab in Htab'. injection Htab' as <-.
    destruct (decide (r = route)) as [->|Hne].
    - apply Hserves in Hs. lia.
    - exact (Hothers r Hr Hne Hs). }
  repeat split.
  - intros Hlt. apply check_true_iff.
    exists t, routes, route. repeat split; auto. now apply Hserves.
  - exact Hfalse.
  - intros Hge ->. apply Hfalse; [exact Hge|].
    intros other Hother Hne. apply list_elem_of_singleton in Hother. contradiction.
Qed.

Lemma on_path_along_route_witness :
  check_stop_on_path line_L (Some "200") (Some "300") (Some "400") = true
  /\ check_stop_on_path line_L (Some "300") (Some "200") (Some "400") = false.
Proof.
  assert (Hnd : NoDup ["100"; "200"; "300"; "400"]).
  { apply (bool_decide_unpack _). vm_compute. exact I. }
  split.
  - apply (on_path_along_route line_L [["100"; "200"; "300"; "400"]]
             ["100"; "200"; "300"; "400"] "400" "200" "300" 1 2);
      [exact Hnd | reflexivity | reflexivity | left | reflexivity | reflexivity | lia].
  - apply (on_path_along_route line_L [["100"; "200"; "300"; "400"]]
             ["100"; "200"; "300"; "400"] "400" "300" "200" 2 1);
      [exact Hnd | reflexivity | reflexivity | left | reflexivity | reflexivity
      | lia | reflexivity].
Defined.

End RouteOrder.

(** ** Identifier normalisation *)

Module Normalisation.
Import Py Spec.

Lemma app_cons (c : ascii) (s t : string) : String c s +:+ t = String c (s +:+ t).
Proof. reflexivity. Qed.

Lemma app_empty_r (s : string) : s +:+ "" = s.
Proof. induction s as [|c s IH]; [reflexivity | now rewrite app_cons, IH]. Qed.

Lemma app_assoc (s1 s2 s3 : string) : (s1 +:+ s2) +:+ s3 = s1 +:+ s2 +:+ s3.
Proof. induction s1 as [|c s1 IH]; [reflexivity | now rewrite !app_cons, IH]. Qed.

Lemma startswith_app (pre s : string) :
  startswith pre s = true -> exists rest, s = pre +:+ rest.
Proof.
  revert s. induction pre as [|a pre IH]; intros s H.
  - now exists s.
  - destruct s as [|b s]; [discriminate|]. cbn [startswith] in H.
    destruct (Ascii.eqb_spec a b) as [->|]; [|discriminate].
    destruct (IH _ H) as [rest ->]. now exists rest.
Qed.

Lemma split_colon_step (c : ascii) (s cur : string) :
  split_scan ":" 0 cur (String c s) =
  if Ascii.eqb ":" c then cur :: split_scan ":" 0 "" s
  else split_scan ":" 0 (cur +:+ String c "") s.
Proof.
  cbn [split_scan startswith String.length Nat.sub].
  now destruct (Ascii.eqb ":" c).
Qed.

Lemma colon_free_cons (c : ascii) (s : string) :
  colon_free (String c s) <-> Ascii.eqb ":" c = false /\ colon_free s.
Proof.
  unfold colon_free. cbn [contains startswith]. destruct (Ascii.eqb ":" c); simpl.
  - split; [discriminate | intros [? _]; discriminate].
  - split; [auto | intros [_ H]; exact H].
Qed.

(** Splitting at colons distributes over a colon in the input. *)
Lemma split_colon_app (P R cur : string) :
  split_scan ":" 0 cur (P +:+ ":" +:+ R)
  = split_scan ":" 0 cur P ++ split_scan ":" 0 "" R.
Proof.
  revert cur. induction P as [|c P IH]; intros cur.
  - reflexivity.
  - change (String c P +:+ ":" +:+ R) with (String c (P +:+ ":" +:+ R)).
    rewrite !split_colon_step. destruct (Ascii.eqb ":" c).
    + now rewrite IH.
    + apply IH.
Qed.

(** A string without colon is a single field. *)
Lemma split_colon_free (s cur : string) :
  colon_free s -> split_scan ":" 0 cur s = [cur +:+ s].
Proof.
  revert cur. induction s as [|c s IH]; intros cur H.
  - simpl. now rewrite app_empty_r.
  - apply colon_free_cons in H as [Hc Hs].
    rewrite split_colon_step, Hc, (IH _ Hs), app_assoc. reflexivity.
Qed.

Lemma item_m2_app {A} (l : list A) (x y : A) : item_m2 (l ++ [x; y]) = Some x.
Proof.
  unfold item_m2. rewrite length_app. simpl.
  destruct (Nat.ltb_spec (List.length l + 2) 2) as [H|H]; [lia|].
  replace (List.length l + 2 - 2) with (List.length l + 0) by lia.
  now rewrite lookup_app_r, Nat.add_0_r, Nat.sub_diag by lia.
Qed.

(** Whatever precedes it, a final [:CODE:] makes [CODE] the second-to-last
    field. *)
Lemma penultimate_field (P CODE : string) :
  colon_free CODE -> item_m2 (split ":" (P +:+ ":" +:+ CODE +:+ ":")) = Some CODE.
Proof.
  intros H. unfold split. rewrite split_colon_app.
  replace (CODE +:+ ":") with (CODE +:+ ":" +:+ "") by reflexivity.
  rewrite split_colon_app, (split_colon_free CODE "" H). simpl.
  apply item_m2_app.
Qed.

Lemma composite_shape (A B C CODE : string) :
  composite A B C CODE = (A +:+ ":" +:+ B +:+ ":" +:+ C) +:+ ":" +:+ CODE +:+ ":".
Proof. unfold composite. now rewrite !app_assoc. Qed.

Lemma contains_app_r (sub p s : string) : contains sub s = true -> contains sub (p +:+ s) = true.
Proof.
  intros H. induction p as [|c p IH]; [exact H|].
  rewrite app_cons. cbn [contains]. rewrite IH. apply orb_true_r.
Qed.

Lemma contains_prefixed (sub rest : string) : contains sub (sub +:+ rest) = true.
Proof.
  assert (Hs : forall p r, startswith p (p +:+ r) = true).
  { induction p as [|c p IH]; intros r; [reflexivity|].
    rewrite app_cons. cbn [startswith]. now rewrite Ascii.eqb_refl. }
  destruct (sub +:+ rest) eqn:E; cbn [contains].
  - rewrite <- E, Hs. reflexivity.
  - rewrite <- E, Hs. reflexivity.
Qed.

(** A string that contains the marker ["IDFM:"] contains a colon. *)
Lemma IDFM_marker_has_colon (s : string) : contains "IDFM:" s = true -> contains ":" s = true.
Proof.
  induction s as [|c s IH]; intros H.
  - discriminate.
  - cbn [contains] in H. apply orb_true_iff in H as [H|H].
    + apply startswith_app in H as [rest ->].
      change ("IDFM:" +:+ rest) with ("IDFM" +:+ ":" +:+ rest).
      apply contains_app_r, contains_prefixed.
    + cbn [contains]. rewrite (IH H). apply orb_true_r.
Qed.

(** C3, as worded, fails on the coordinator's normalisation: an identifier
    without any colon comes back unchanged instead of absent, and then
    matches the stop of that name in a table. *)
Lemma bare_code_is_kept :
  contains ":" "43114" = false /\
  Coordinator._extract_stif_id (Some "43114") = Some "43114" /\
  Topology.check_stop_on_path {[ "43114" := [["100"; "43114"]] ]}
    (Some "100") (Coordinator._extract_stif_id (Some "43114")) (Some "43114") = true.
Proof. repeat split; reflexivity. Qed.

(** Fewer segments than four do not make the result absent either: the
    second-to-last field is returned whenever there is at least one colon. *)
Example short_identifiers :
  Topology._extract_stif_id "Q:43114:" = Some "43114"
  /\ Topology._extract_stif_id "A:B" = Some "A"
  /\ Coordinator._extract_stif_id (Some "A:B") = Some "A".
Proof. repeat split; reflexivity. Qed.

(** The marker test of the topology normalisation cuts at the first
    ["IDFM:"], wherever it stands. *)
Example marker_inside_code :
  Topology._extract_stif_id "A:B:C:xIDFM:" = None
  /\ Topology._extract_stif_id "IDFM:B:IDFM:CODE:" = Some "B"
  /\ Topology._extract_stif_id "stop_point:IDFM:STIF:StopPoint:Q:43114:" = Some "43114".
Proof. repeat split; reflexivity. Qed.

(** Composite identifiers without the marker, inputs without colon, and
    absent identifiers. *)
Lemma normalisation_without_marker (A B C CODE s : string) :
  colon_free CODE -> colon_free s ->
  Coordinator._extract_stif_id (Some (composite A B C CODE)) = Some CODE
  /\ (contains "IDFM:" (composite A B C CODE) = false ->
      Topology._extract_stif_id (composite A B C CODE) = Some CODE)
  /\ Topology._extract_stif_id s = None
  /\ Coordinator._extract_stif_id (Some s) = (if truthy (Some s) then Some s else None)
  /\ Coordinator._extract_stif_id None = None
  /\ (forall topology a b,
        Topology.check_stop_on_path topology None a b = false
        /\ Topology.check_stop_on_path topology a None b = false
        /\ Topology.check_stop_on_path topology a b None = false).
Proof.
  intros Hcode Hs.
  assert (Hpen : item_m2 (split ":" (composite A B C CODE)) = Some CODE).
  { rewrite composite_shape. now apply penultimate_field. }
  repeat split.
  - unfold Coordinator._extract_stif_id.
    assert (Ht : truthy (Some (composite A B C CODE)) = true).
    { unfold composite. destruct A; reflexivity. }
    now rewrite Ht, Hpen.
  - intros Hmarker. unfold Topology._extract_stif_id. now rewrite Hmarker.
  - unfold Topology._extract_stif_id.
    destruct (contains "IDFM:" s) eqn:E.
    + apply IDFM_marker_has_colon in E. unfold colon_free in Hs. congruence.
    + unfold split. now rewrite (split_colon_free s "" Hs).
  - unfold Coordinator._extract_stif_id.
    destruct (truthy (Some s)); [|reflexivity].
    unfold split. now rewrite (split_colon_free s "" Hs).
  - unfold Topology.check_stop_on_path.
    destruct b as [t|]; [|reflexivity]. destruct (topology !! t) as [routes|]; [|reflexivity].
    induction routes as [|r routes IH]; [reflexivity | exact IH].
  - unfold Topology.check_stop_on_path.
    destruct b as [t|]; [|reflexivity]. destruct (topology !! t) as [routes|]; [|reflexivity].
    induction routes as [|r routes IH]; [reflexivity|].
    simpl. unfold Topology.route_try. simpl. now destruct (index r a).
Qed.

End Normalisation.

(** ** The credential rotator *)

Module Rotator.
Import ApiWrapper RotatorSpec.

Lemma invocations_app (e1 e2 : list Event) :
  invocations (e1 ++ e2) = invocations e1 ++ invocations e2.
Proof.
  induction e1 as [|[i|i j] e1 IH]; simpl; [reflexivity | now rewrite IH | exact IH].
Qed.

Lemma invocations_sweep (N i n : nat) :
  i < N -> invocations (sweep N i n) = map (fun k => (i + k) mod N) (seq 0 n).
Proof.
  revert i. induction n as [|n IH]; intros i Hi; [reflexivity|].
  assert (HN : N <> 0) by lia.
  cbn [sweep invocations seq map].
  rewrite Nat.add_0_r, (Nat.mod_small i N Hi). f_equal.
  rewrite IH by now apply Nat.mod_upper_bound.
  rewrite <- seq_shift, map_map. apply map_ext. intros k.
  rewrite Nat.Div0.add_mod_idemp_l. f_equal. lia.
Qed.

(** Two offsets below [N] from the same start reach different credentials. *)
Lemma offset_inj (N i k1 k2 : nat) :
  k1 < N -> k2 < N -> (i + k1) mod N = (i + k2) mod N -> k1 = k2.
Proof.
  intros H1 H2 E.
  assert (HN : N <> 0) by lia.
  pose proof (Nat.div_mod_eq (i + k1) N) as D1.
  pose proof (Nat.div_mod_eq (i + k2) N) as D2.
  rewrite E in D1.
  assert ((i + k1) / N = (i + k2) / N) by nia.
  lia.
Qed.

Lemma NoDup_offsets (N i n : nat) :
  n <= N -> NoDup (map (fun k => (i + k) mod N) (seq 0 n)).
Proof.
  intros Hn. apply NoDup_fmap_2_strong; [|apply NoDup_seq].
  intros k1 k2 Hk1 Hk2 E.
  apply elem_of_seq in Hk1, Hk2. apply (offset_inj N i); [lia | lia | exact E].
Qed.

Section Loop.
Context {IDFMApi World : Type}.

Lemma init_consistent (new_client : string -> Z -> IDFMApi) tokens timeout :
  consistent (init new_client tokens timeout).
Proof.
  unfold consistent, init. simpl. rewrite length_map. split; [reflexivity|].
  destruct tokens; [now right | left; simpl; lia].
Qed.

Context {A : Type}.
Implicit Types (func : @Call IDFMApi World A) (st : @State IDFMApi World).

Lemma retry_loop_unfold func max_attempts attempts st :
  retry_loop func max_attempts attempts st =
  if lt_dec attempts max_attempts then
    match call_current func st with
    | (Return a, st1) => (Return a, st1)
    | (Raise (RequestError code message), st1) =>
        if (code =? 429)%Z then
          match _rotate_key st1 with
          | (Return _, st2) => retry_loop func max_attempts (S attempts) st2
          | (Raise e, st2) => (Raise e, st2)
          end
        else (Raise (RequestError code message), st1)
    | (Raise e, st1) => (Raise e, st1)
    end
  else (Raise AllCredentialsExhausted, st).
Proof.
  rewrite retry_loop_equation_1.
  destruct (lt_dec attempts max_attempts); simpl; [|reflexivity].
  destruct (call_current func st) as [[a|[code message| | |name]] st1]; simpl;
    try reflexivity.
  destruct (code =? 429)%Z; simpl; [|reflexivity].
  destruct (_rotate_key st1) as [[[]|e] st2]; reflexivity.
Qed.

Lemma call_current_client func st client :
  _clients (self st) !! _current_token_index (self st) = Some client ->
  call_current func st
  = (fst (func client (remote st)), invoked st (snd (func client (remote st)))).
Proof.
  intros H. unfold call_current. rewrite H.
  now destruct (func client (remote st)).
Qed.

Lemma rotate_key_pool st :
  0 < List.length (_tokens (self st)) ->
  _rotate_key st
  = (Return tt,
     rotated st ((_current_token_index (self st) + 1) mod List.length (_tokens (self st)))).
Proof.
  intros H. unfold _rotate_key, rotated.
  destruct (List.length (_tokens (self st))) eqn:E; [lia | reflexivity].
Qed.

(** One rate-limited attempt: the call, the rotation, and the loop again. *)
Lemma rate_limited_step func N attempts st client message :
  List.length (_tokens (self st)) = N ->
  attempts < N ->
  _clients (self st) !! _current_token_index (self st) = Some client ->
  fst (func client (remote st)) = Raise (RequestError 429 message) ->
  retry_loop func N attempts st
  = retry_loop func N (S attempts)
      (rotated (invoked st (snd (func client (remote st))))
               ((_current_token_index (self st) + 1) mod N)).
Proof.
  intros HN Hlt Hclient Hfail.
  rewrite retry_loop_unfold, (call_current_client _ _ _ Hclient), Hfail.
  destruct (lt_dec attempts N) as [_|]; [|contradiction].
  change (429 =? 429)%Z with true. cbv iota.
  rewrite rotate_key_pool by (simpl; lia). simpl. now rewrite HN.
Qed.

Lemma other_error_propagates func max_attempts attempts st client e :
  attempts < max_attempts ->
  _clients (self st) !! _current_token_index (self st) = Some client ->
  fst (func client (remote st)) = Raise e ->
  not_rate_limit e ->
  retry_loop func max_attempts attempts st
  = (Raise e, invoked st (snd (func client (remote st)))).
Proof.
  intros Hlt Hclient Hfail Hother.
  rewrite retry_loop_unfold, (call_current_client _ _ _ Hclient), Hfail.
  destruct (lt_dec attempts max_attempts) as [_|]; [|contradiction].
  destruct e as [code message| | |name]; try reflexivity.
  destruct (Z.eqb_spec code 429) as [->|]; [|reflexivity].
  now destruct (Hother message).
Qed.


Lemma iter_rotate (N i n : nat) :
  i < N -> Nat.iter n (fun i => (i + 1) mod N) i = (i + n) mod N.
Proof.
  intros Hi. induction n as [|n IH]; simpl.
  - now rewrite Nat.add_0_r, Nat.mod_small.
  - rewrite IH, Nat.Div0.add_mod_idemp_l. f_equal. lia.
Qed.


(** C7.  A fresh pool of two credentials, the first always rate limited and
    the second served: one logical call returns what the second remote call
    returned, after exactly the calls with credential 0 and credential 1,
    and leaves the active index at 1. *)
Theorem second_key_succeeds (new_client : string -> Z -> IDFMApi)
    (token0 token1 : string) (timeout : Z) (func : @Call IDFMApi World A) (w : World) :
  (forall w, exists message,
      fst (func (new_client token0 timeout) w) = Raise (RequestError 429 message)) ->
  (forall w, exists a, fst (func (new_client token1 timeout) w) = Return a) ->
  exists a st',
    _call_with_retry func (fresh new_client [token0; token1] timeout w) = (Return a, st')
    /\ fst (func (new_client token1 timeout) (snd (func (new_client token0 timeout) w)))
       = Return a
    /\ trace st' = [Invoke 0; Rotate 0 1; Invoke 1]
    /\ _current_token_index (self st') = 1.
Proof.
  intros Hfirst Hsecond. unfold _call_with_retry.
  set (st := fresh new_client [token0; token1] timeout w).
  change (List.length (_tokens (self st))) with 2.
  destruct (Hfirst (remote st)) as [message Hfail].
  assert (Hc0 : _clients (self st) !! _current_token_index (self st)
                = Some (new_client token0 timeout)) by reflexivity.
  rewrite (rate_limited_step func 2 0 st _ message eq_refl ltac:(lia) Hc0 Hfail).
  set (st1 := rotated _ _).
  assert (Hc1 : _clients (self st1) !! _current_token_index (self st1)
                = Some (new_client token1 timeout)) by reflexivity.
  destruct (Hsecond (remote st1)) as [a Hok].
  rewrite retry_loop_unfold, (call_current_client _ _ _ Hc1), Hok.
  destruct (lt_dec 1 2) as [_|]; [|lia].
  exists a, (invoked st1 (snd (func (new_client token1 timeout) (remote st1)))).
  repeat split. exact Hok.
Qed.

(** C8.  When the remote call made with the active credential raises an
    error that is not the rate-limit signal, the loop ends at once with that
    error: the object, and with it the active index, is as before the call,
    and the trace gains that one call and no rotation.  This holds at every
    iteration of the loop, and so for the logical call as a whole when its
    first attempt fails in this way. *)
Theorem other_error_not_retried func st client e :
  0 < List.length (_tokens (self st)) ->
  _clients (self st) !! _current_token_index (self st) = Some client ->
  fst (func client (remote st)) = Raise e ->
  not_rate_limit e ->
  (forall max_attempts attempts,
      attempts < max_attempts ->
      retry_loop func max_attempts attempts st
      = (Raise e, invoked st (snd (func client (remote st)))))
  /\ _call_with_retry func st = (Raise e, invoked st (snd (func client (remote st))))
  /\ self (snd (_call_with_retry func st)) = self st
  /\ trace (snd (_call_with_retry func st))
     = trace st ++ [Invoke (_current_token_index (self st))].
Proof.
  intros Hpool Hclient Hfail Hother.
  assert (Hrun : _call_with_retry func st
                 = (Raise e, invoked st (snd (func client (remote st))))).
  { unfold _call_with_retry. now apply other_error_propagates. }
  split; [|rewrite Hrun; repeat split].
  intros max_attempts attempts Hlt. now apply other_error_propagates.
Qed.

(** The trace only grows in the loop. *)
Lemma retry_loop_trace func max_attempts n :
  forall attempts st,
    max_attempts - attempts <= n ->
    exists events, trace (snd (retry_loop func max_attempts attempts st)) = trace st ++ events.
Proof.
  induction n as [|n IH]; intros attempts st Hn; rewrite retry_loop_unfold;
    (destruct (lt_dec attempts max_attempts) as [Hlt|];
     [|exists []; simpl; now rewrite app_nil_r]); [lia|].
  unfold call_current.
  destruct (_clients (self st) !! _current_token_index (self st)) as [client|];
    [|exists []; simpl; now rewrite app_nil_r].
  destruct (func client (remote st)) as [[a|e] w]; [eexists; reflexivity|].
  destruct e as [code message| | |name]; try (eexists; reflexivity).
  destruct (code =? 429)%Z; [|eexists; reflexivity].
  unfold _rotate_key. cbn [self _tokens].
  destruct (List.length (_tokens (self st))); [eexists; reflexivity|].
  match goal with
  | |- context [retry_loop func max_attempts (S attempts) ?s] =>
      destruct (IH (S attempts) s) as [events Hev]; [lia|]
  end.
  rewrite Hev. cbn [trace]. rewrite <- !app_assoc. eexists; reflexivity.
Qed.

(** The loop leaves the object as consistent as it found it, so every state
    reached from the constructor through logical calls is consistent. *)
Lemma retry_loop_consistent func max_attempts n :
  forall attempts st,
    max_attempts - attempts <= n ->
    consistent (self st) ->
    consistent (self (snd (retry_loop func max_attempts attempts st))).
Proof.
  induction n as [|n IH]; intros attempts st Hn Hcons; rewrite retry_loop_unfold;
    (destruct (lt_dec attempts max_attempts) as [Hlt|]; [|exact Hcons]); [lia|].
  unfold call_current.
  destruct (_clients (self st) !! _current_token_index (self st)) as [client|];
    [|exact Hcons].
  destruct (func client (remote st)) as [[a|e] w]; [exact Hcons|].
  destruct e as [code message| | |name]; try exact Hcons.
  destruct (code =? 429)%Z; [|exact Hcons].
  unfold _rotate_key. cbn [self _tokens].
  destruct (List.length (_tokens (self st))) as [|m] eqn:E; [exact Hcons|].
  apply IH; [lia|].
  destruct Hcons as [Hcl _]. split; cbn [self _clients _tokens _current_token_index].
  - exact Hcl.
  - left. rewrite E. apply Nat.mod_upper_bound. lia.
Qed.

Lemma call_with_retry_consistent func st :
  consistent (self st) -> consistent (self (snd (_call_with_retry func st))).
Proof.
  intros Hcons. unfold _call_with_retry.
  now apply (retry_loop_consistent func _ (List.length (_tokens (self st)))); [lia|].
Qed.

(** A logical call whose first attempt is rate limited rotates. *)
Lemma first_attempt_rate_limited func st client message :
  0 < List.length (_tokens (self st)) ->
  _clients (self st) !! _current_token_index (self st) = Some client ->
  fst (func client (remote st)) = Raise (RequestError 429 message) ->
  exists events,
    trace (snd (_call_with_retry func st))
    = trace st ++ Invoke (_current_token_index (self st))
        :: Rotate (_current_token_index (self st))
             ((_current_token_index (self st) + 1) mod List.length (_tokens (self st)))
        :: events.
Proof.
  intros Hpool Hclient Hfail. unfold _call_with_retry.
  rewrite (rate_limited_step func _ 0 st client message eq_refl Hpool Hclient Hfail).
  match goal with
  | |- context [retry_loop func ?m 1 ?s] =>
      destruct (retry_loop_trace func m m 1 s) as [events Hev]; [lia|]
  end.
  rewrite Hev. cbn [trace rotated invoked]. rewrite <- !app_assoc. eexists; reflexivity.
Qed.

End Loop.


(** The run of the three-credential pool, step by step. *)
Example three_keys_exhausted :
  _call_with_retry (@always_limited Z) (fresh token_client ["key-A"; "key-B"; "key-C"] 300 tt)
  = (Raise AllCredentialsExhausted,
     {| self := init token_client ["key-A"; "key-B"; "key-C"] 300;
        remote := tt;
        trace := [Invoke 0; Rotate 0 1; Invoke 1; Rotate 1 2; Invoke 2; Rotate 2 0] |}).
Proof. reflexivity. Qed.

Lemma second_key_succeeds_witness :
  exists a st',
    _call_with_retry only_key_B (fresh token_client ["key-A"; "key-B"] 300 tt) = (Return a, st')
    /\ fst (only_key_B "key-B" (snd (only_key_B "key-A" tt))) = Return a
    /\ trace st' = [Invoke 0; Rotate 0 1; Invoke 1]
    /\ _current_token_index (self st') = 1.
Proof.
  apply (second_key_succeeds token_client "key-A" "key-B" 300 only_key_B tt).
  - intros w. exists "Too Many Requests". reflexivity.
  - intros w. exists 7%Z. reflexivity.
Defined.

Lemma other_error_not_retried_witness :
  _call_with_retry unavailable (fresh token_client ["key-A"; "key-B"] 300 tt)
  = (Raise (RequestError 503 "Service Unavailable"),
     {| self := init token_client ["key-A"; "key-B"] 300; remote := tt; trace := [Invoke 0] |}).
Proof.
  apply (other_error_not_retried unavailable
           (fresh token_client ["key-A"; "key-B"] 300 tt) "key-A"
           (RequestError 503 "Service Unavailable")).
  - simpl. lia.
  - reflexivity.
  - reflexivity.
  - intros message. discriminate.
Defined.

(** *** The methods of the wrapper *)

Section Methods.
Context {IDFMApi World : Type}.
Context {TransportType LineData StopData TrafficData InfoData ReportData : Type}.
Variable client_get_lines : option TransportType -> @Call IDFMApi World (list LineData).
Variable client_get_stops : string -> @Call IDFMApi World (list StopData).
Variable client_get_traffic :
  string -> option string -> option string -> option string
  -> @Call IDFMApi World (list TrafficData).
Variable client_get_destinations :
  string -> option string -> option string -> @Call IDFMApi World (list string).
Variable client_get_directions : string -> option string -> @Call IDFMApi World (list string).
Variable client_get_infos : string -> @Call IDFMApi World (list InfoData).
Variable client_get_line_reports : string -> bool -> @Call IDFMApi World (list ReportData).

(** C10.  [get_lines] and [get_stops] make one remote call with the active
    client and hand back whatever it returns or raises, the rate-limit error
    included: the object is unchanged and the trace gains that call only.
    The five other methods are [_call_with_retry] applied to the client's
    method, and a logical call through [_call_with_retry] whose first
    attempt is rate limited does rotate. *)
Theorem direct_calls_bypass_rotation (st : @State IDFMApi World) (client : IDFMApi)
    (transport : option TransportType) (line_id : string) :
  0 < List.length (_tokens (self st)) ->
  _clients (self st) !! _current_token_index (self st) = Some client ->
  get_lines client_get_lines transport st
  = (fst (client_get_lines transport client (remote st)),
     invoked st (snd (client_get_lines transport client (remote st))))
  /\ get_stops client_get_stops line_id st
     = (fst (client_get_stops line_id client (remote st)),
        invoked st (snd (client_get_stops line_id client (remote st))))
  /\ (forall stop_id destination_name direction_name line st,
        get_traffic client_get_traffic stop_id destination_name direction_name line st
        = _call_with_retry
            (client_get_traffic stop_id destination_name direction_name line) st)
  /\ (forall stop_id direction_name line st,
        get_destinations client_get_destinations stop_id direction_name line st
        = _call_with_retry (client_get_destinations stop_id direction_name line) st)
  /\ (forall stop_id line st,
        get_directions client_get_directions stop_id line st
        = _call_with_retry (client_get_directions stop_id line) st)
  /\ (forall line st,
        get_infos client_get_infos line st = _call_with_retry (client_get_infos line) st)
  /\ (forall line exclude_elevator st,
        get_line_reports client_get_line_reports line exclude_elevator st
        = _call_with_retry (client_get_line_reports line exclude_elevator) st)
  /\ (forall B (func : @Call IDFMApi World B) message,
        fst (func client (remote st)) = Raise (RequestError 429 message) ->
        exists events,
          trace (snd (_call_with_retry func st))
          = trace st ++ Invoke (_current_token_index (self st))
              :: Rotate (_current_token_index (self st))
                   ((_current_token_index (self st) + 1) mod List.length (_tokens (self st)))
              :: events).
Proof.
  intros Hpool Hclient.
  split; [apply (call_current_client _ _ _ Hclient)|].
  split; [apply (call_current_client _ _ _ Hclient)|].
  repeat (split; [reflexivity|]).
  intros B func message Hfail.
  now apply (first_attempt_rate_limited func st client message).
Qed.

End Methods.

Lemma direct_calls_bypass_rotation_witness :
  get_lines (fun _ : option unit => @always_limited (list unit)) None
    (fresh token_client ["key-A"; "key-B"] 300 tt)
  = (Raise (RequestError 429 "Too Many Requests"),
     {| self := init token_client ["key-A"; "key-B"] 300; remote := tt; trace := [Invoke 0] |})
  /\ exists events,
       trace (snd (get_infos (fun _ : string => @always_limited (list unit)) "C01742"
                     (fresh token_client ["key-A"; "key-B"] 300 tt)))
       = [] ++ Invoke 0 :: Rotate 0 1 :: events.
Proof.
  pose proof (direct_calls_bypass_rotation
                (fun _ : option unit => @always_limited (list unit))
                (fun _ : string => @always_limited (list unit))
                (fun _ _ _ _ => @always_limited (list unit))
                (fun _ _ _ => @always_limited (list string))
                (fun _ _ => @always_limited (list string))
                (fun _ : string => @always_limited (list unit))
                (fun _ _ => @always_limited (list unit))
                (fresh token_client ["key-A"; "key-B"] 300 tt) "key-A" None "C01742") as H.
  destruct H as (Hlines & _ & _ & _ & _ & _ & _ & Hretry).
  - simpl. lia.
  - reflexivity.
  - split; [exact Hlines|].
    apply (Hretry (list unit) always_limited "Too Many Requests"). reflexivity.
Defined.

End Rotator.

(** ** The topology cache *)

Module Cache.
Import Topology Spec CacheSpec.

(** A successful fetch of line ["L"] builds and caches the table of the
    scenario. *)
Example fetch_line_L :
  get_ordered_stops source_line_L "L" init
  = (line_L,
     {| _topology_cache := {[ "L" := line_L ]};
        requests := [routes_url "L"; points_url "route:IDFM:L:1"] |}).
Proof. vm_compute. reflexivity. Qed.

Section Source.
Variable navitia : list string -> string -> HttpReply.

Lemma navitia_request_cache url st :
  _topology_cache (snd (_navitia_request navitia url st)) = _topology_cache st.
Proof.
  unfold _navitia_request.
  destruct (navitia (requests st) url) as [|status json]; [reflexivity|].
  now destruct (status =? 200)%Z.
Qed.

Lemma navitia_request_log url st :
  requests (snd (_navitia_request navitia url st)) = requests st ++ [url].
Proof.
  unfold _navitia_request.
  destruct (navitia (requests st) url) as [|status json]; [reflexivity|].
  now destruct (status =? 200)%Z.
Qed.

Lemma routes_fetch_state routes : forall topology st,
  _topology_cache (snd (routes_fetch navitia routes topology st)) = _topology_cache st
  /\ requests (snd (routes_fetch navitia routes topology st))
     = requests st ++ map points_url routes.
Proof.
  induction routes as [|route_id rest IH]; intros topology st; simpl.
  - now rewrite app_nil_r.
  - pose proof (navitia_request_cache (points_url route_id) st) as Hc.
    pose proof (navitia_request_log (points_url route_id) st) as Hl.
    destruct (_navitia_request navitia (points_url route_id) st) as [points_data st1].
    simpl in Hc, Hl.
    assert (Hgo : forall topology',
      _topology_cache (snd (routes_fetch navitia rest topology' st1)) = _topology_cache st
      /\ requests (snd (routes_fetch navitia rest topology' st1))
         = requests st ++ points_url route_id :: map points_url rest).
    { intros topology'. destruct (IH topology' st1) as [H1 H2].
      rewrite H1, H2, Hc, Hl, <- app_assoc. auto. }
    destruct points_data as [doc|]; [|apply Hgo].
    destruct (doc !! "stop_points"); apply Hgo.
Qed.

(** A failed routes request: the empty table, and nothing but the request
    itself changes in the state. *)
Lemma failed_fetch line_id st :
  _topology_cache st !! line_id = None ->
  fetch_failed (navitia (requests st) (routes_url line_id)) = true ->
  get_ordered_stops navitia line_id st
  = (∅, {| _topology_cache := _topology_cache st;
           requests := requests st ++ [routes_url line_id] |}).
Proof.
  intros Hmiss Hfail. unfold get_ordered_stops, _navitia_request. rewrite Hmiss.
  destruct (navitia (requests st) (routes_url line_id)) as [|status json]; [reflexivity|].
  simpl in Hfail. destruct (status =? 200)%Z; [|reflexivity].
  simpl in Hfail. destruct (json !! "routes"); [discriminate | reflexivity].
Qed.

(** A call for a line that is not cached starts with the routes request. *)
Lemma uncached_call_requests line_id st :
  _topology_cache st !! line_id = None ->
  exists more,
    requests (snd (get_ordered_stops navitia line_id st))
    = requests st ++ routes_url line_id :: more.
Proof.
  intros Hmiss. unfold get_ordered_stops. rewrite Hmiss.
  pose proof (navitia_request_log (routes_url line_id) st) as Hl.
  destruct (_navitia_request navitia (routes_url line_id) st) as [routes_data st1].
  simpl in Hl.
  destruct routes_data as [doc|]; [|exists []; exact Hl].
  destruct (doc !! "routes") as [routes|]; [|exists []; exact Hl].
  destruct (routes_fetch_state routes ∅ st1) as [_ H2].
  destruct (routes_fetch navitia routes ∅ st1) as [topology st2].
  simpl in *. exists (map points_url routes). now rewrite H2, Hl, <- app_assoc.
Qed.

(** C5.  When the routes request for a line that is not cached fails (an
    exception, a status other than 200, or a body without routes),
    [get_ordered_stops] returns the empty table and leaves the cache as it
    was, so the line is still not cached; a following call for the same line
    sends the routes request again. *)
Theorem failed_fetch_not_cached (line_id : string) (st : State) :
  _topology_cache st !! line_id = None ->
  fetch_failed (navitia (requests st) (routes_url line_id)) = true ->
  fst (get_ordered_stops navitia line_id st) = ∅
  /\ _topology_cache (snd (get_ordered_stops navitia line_id st)) = _topology_cache st
  /\ _topology_cache (snd (get_ordered_stops navitia line_id st)) !! line_id = None
  /\ requests (snd (get_ordered_stops navitia line_id st))
     = requests st ++ [routes_url line_id]
  /\ exists more,
       requests (snd (get_ordered_stops navitia line_id
                        (snd (get_ordered_stops navitia line_id st))))
       = requests st ++ routes_url line_id :: routes_url line_id :: more.
Proof.
  intros Hmiss Hfail. rewrite (failed_fetch _ _ Hmiss Hfail). simpl.
  repeat split; [exact Hmiss|].
  destruct (uncached_call_requests line_id
              {| _topology_cache := _topology_cache st;
                 requests := requests st ++ [routes_url line_id] |} Hmiss) as [more Hmore].
  exists more. rewrite Hmore. simpl. now rewrite <- app_assoc.
Qed.

Lemma get_ordered_stops_keeps line_id table other st :
  _topology_cache st !! line_id = Some table ->
  _topology_cache (snd (get_ordered_stops navitia other st)) !! line_id = Some table.
Proof.
  intros Hhit. unfold get_ordered_stops.
  destruct (_topology_cache st !! other) as [cached|] eqn:Eother; [exact Hhit|].
  assert (Hne : other <> line_id) by congruence.
  pose proof (navitia_request_cache (routes_url other) st) as Hc.
  destruct (_navitia_request navitia (routes_url other) st) as [routes_data st1].
  simpl in Hc.
  destruct routes_data as [doc|]; [|simpl; now rewrite Hc].
  destruct (doc !! "routes") as [routes|]; [|simpl; now rewrite Hc].
  destruct (routes_fetch_state routes ∅ st1) as [H1 _].
  destruct (routes_fetch navitia routes ∅ st1) as [topology st2].
  simpl in *. rewrite lookup_insert_ne by exact Hne. now rewrite H1, Hc.
Qed.

Lemma perform_keeps line_id table op st :
  _topology_cache st !! line_id = Some table ->
  _topology_cache (perform navitia op st) !! line_id = Some table.
Proof.
  intros Hhit. destruct op as [other|url|id|topology a b c]; simpl; auto.
  - now apply get_ordered_stops_keeps.
  - now rewrite navitia_request_cache.
Qed.

Lemma perform_all_keeps line_id table ops : forall st,
  _topology_cache st !! line_id = Some table ->
  _topology_cache (perform_all navitia ops st) !! line_id = Some table.
Proof.
  induction ops as [|op ops IH]; intros st Hhit; [exact Hhit|].
  apply IH. now apply perform_keeps.
Qed.

(** C6.  Once a table is cached for a line, it stays there unchanged through
    any sequence of operations on the object; a call for that line then
    returns that table without touching the state, and the path check on the
    returned table answers as it does on the cached one. *)
Theorem cached_table_is_stable (line_id : string) (table : TopologyTable)
    (ops : list Operation) (st : State) :
  _topology_cache st !! line_id = Some table ->
  _topology_cache (perform_all navitia ops st) !! line_id = Some table
  /\ get_ordered_stops navitia line_id (perform_all navitia ops st)
     = (table, perform_all navitia ops st)
  /\ (forall start_id target_id terminus_id,
        check_stop_on_path
          (fst (get_ordered_stops navitia line_id (perform_all navitia ops st)))
          start_id target_id terminus_id
        = check_stop_on_path table start_id target_id terminus_id).
Proof.
  intros Hhit. pose proof (perform_all_keeps _ _ ops _ Hhit) as Hkept.
  assert (Hget : get_ordered_stops navitia line_id (perform_all navitia ops st)
                 = (table, perform_all navitia ops st)).
  { unfold get_ordered_stops. now rewrite Hkept. }
  split; [exact Hkept|]. split; [exact Hget|].
  intros a b c. now rewrite Hget.
Qed.

End Source.

Lemma failed_fetch_not_cached_witness :
  fst (get_ordered_stops source_down "L" init) = ∅
  /\ _topology_cache (snd (get_ordered_stops source_down "L" init)) = ∅
  /\ exists more,
       requests (snd (get_ordered_stops source_down "L"
                        (snd (get_ordered_stops source_down "L" init))))
       = [] ++ routes_url "L" :: routes_url "L" :: more.
Proof.
  destruct (failed_fetch_not_cached source_down "L" init) as (H1 & H2 & _ & _ & H5).
  - reflexivity.
  - reflexivity.
  - exact (conj H1 (conj H2 H5)).
Defined.

Lemma cached_table_is_stable_witness :
  get_ordered_stops source_down "L"
    (perform_all source_down [GetOrderedStops "M"; GetOrderedStops "L"]
       (snd (get_ordered_stops source_line_L "L" init)))
  = (line_L,
     perform_all source_down [GetOrderedStops "M"; GetOrderedStops "L"]
       (snd (get_ordered_stops source_line_L "L" init))).
Proof.
  apply (cached_table_is_stable source_down "L" line_L
           [GetOrderedStops "M"; GetOrderedStops "L"]
           (snd (get_ordered_stops source_line_L "L" init))).
  vm_compute. reflexivity.
Defined.

End Cache.

(** ** The refresh *)

Module Refresh.
Import Coordinator RefreshSpec.

Section Sorting.
Context {A : Type}.
Variable key : A -> Z.

Lemma insert_by_perm (x : A) (l : list A) : Permutation (Py.insert_by key x l) (x :: l).
Proof.
  induction l as [|y l IH]; simpl; [reflexivity|].
  destruct (key x <=? key y)%Z; [reflexivity|].
  rewrite IH. apply perm_swap.
Qed.

Lemma sorted_perm (l : list A) : Permutation (Py.sorted key l) l.
Proof.
  induction l as [|x l IH]; simpl; [reflexivity|].
  fold (Py.sorted key l). rewrite insert_by_perm. now apply perm_skip.
Qed.

Lemma insert_by_sorted (x : A) (l : list A) :
  StronglySorted (fun a b => (key a <= key b)%Z) l ->
  StronglySorted (fun a b => (key a <= key b)%Z) (Py.insert_by key x l).
Proof.
  induction 1 as [|y l Hl IH Hy]; simpl.
  - repeat constructor.
  - destruct (Z.leb_spec (key x) (key y)) as [Hle|Hgt].
    + constructor; [now constructor|].
      constructor; [exact Hle|].
      eapply Forall_impl; [exact Hy|]. simpl. intros z Hz. lia.
    + constructor; [exact IH|].
      rewrite (insert_by_perm x l). constructor; [lia | exact Hy].
Qed.

Lemma sorted_sorted (l : list A) :
  StronglySorted (fun a b => (key a <= key b)%Z) (Py.sorted key l).
Proof.
  induction l as [|x l IH]; simpl; [constructor|].
  now apply insert_by_sorted.
Qed.

End Sorting.

Section Cycle.
Context {TrafficData ReportData : Type}.
Variable schedule : TrafficData -> option Z.
Variable destination_id : TrafficData -> option string.
Variable api_get_traffic :
  option string -> option string -> option string -> string -> option (list TrafficData).
Variable api_get_line_reports : string -> bool -> option (list ReportData).
Variable navitia : list string -> string -> Topology.HttpReply.

(** The loop of the topology pass keeps, in order, the departures whose
    terminus passes the path check. *)
Lemma filter_loop_filter c topo_data tr : forall filtered_tr,
  filter_loop destination_id c topo_data tr filtered_tr
  = filtered_tr ++
    List.filter (fun train =>
      Topology.check_stop_on_path topo_data (stop_id_simple c) (destination_simple c)
        (_extract_stif_id (destination_id train))) tr.
Proof.
  induction tr as [|train rest IH]; intros filtered_tr; simpl.
  - now rewrite app_nil_r.
  - destruct (Topology.check_stop_on_path _ _ _ _).
    + now rewrite IH, <- app_assoc.
    + apply IH.
Qed.

Lemma in_future_iff now x :
  in_future schedule now x = true <-> exists t, schedule x = Some t /\ (now < t)%Z.
Proof.
  unfold in_future. destruct (schedule x) as [t|].
  - rewrite Z.ltb_lt. split; [eauto | now intros (t' & [= <-] & H)].
  - split; [discriminate | now intros (t & [=] & _)].
Qed.

Lemma not_later_key (l : list TrafficData) :
  Forall (fun x => is_Some (schedule x)) l ->
  StronglySorted (fun a b => (schedule_key schedule a <= schedule_key schedule b)%Z) l ->
  StronglySorted (not_later schedule) l.
Proof.
  intros Hall Hs. induction Hs as [|x l Hl IH Hx]; [constructor|].
  apply Forall_cons_1 in Hall as [[tx Hx'] Hall].
  constructor; [now apply IH|].
  rewrite Forall_forall in Hx, Hall |- *. intros y Hy.
  specialize (Hx y Hy). destruct (Hall y Hy) as [ty Hy'].
  unfold not_later, schedule_key in *. now rewrite Hx', Hy' in *.
Qed.

(** C9.  When a refresh produces data, its departure list is the one
    obtained from the fetched list by, first, the topology pass (when the
    destination is a stop identifier: the departures whose terminus passes
    the path check on the fetched table, otherwise all of them) and, then,
    the time filter and the sort: it holds exactly the survivors of the
    topology pass that are scheduled strictly after [utcd], as often as they
    occur there, in ascending order of their schedule. *)
Theorem refresh_departures (c : IDFMDataUpdateCoordinator) (d : Clock)
    (topo topo' : Topology.State) (data : Data) :
  _async_update_data schedule destination_id api_get_traffic api_get_line_reports
    navitia c d topo = (Updated data, topo') ->
  exists tr,
    api_get_traffic (stop_area_id c)
      (if use_topology c then None else destination c)
      (if use_topology c then None else direction c) (line_id c) = Some tr
    /\ let survivors :=
         if use_topology c && Py.truthy (destination_simple c)
         then List.filter (fun train =>
                Topology.check_stop_on_path
                  (fst (Topology.get_ordered_stops navitia (line_id c) topo))
                  (stop_id_simple c) (destination_simple c)
                  (_extract_stif_id (destination_id train))) tr
         else tr in
       DATA_TRAFFIC data
       = Py.sorted (schedule_key schedule) (List.filter (in_future schedule (utcd d)) survivors)
       /\ Permutation (DATA_TRAFFIC data) (List.filter (in_future schedule (utcd d)) survivors)
       /\ (forall x, In x (DATA_TRAFFIC data) <->
                     In x survivors /\ exists t, schedule x = Some t /\ (utcd d < t)%Z)
       /\ StronglySorted (not_later schedule) (DATA_TRAFFIC data).
Proof.
  unfold _async_update_data. intros Hrun.
  destruct (refresh_due c d); [|discriminate].
  destruct (api_get_traffic _ _ _ _) as [tr|]; [|discriminate].
  exists tr. split; [reflexivity|].
  assert (Hpass : fst (topology_pass destination_id navitia c tr topo)
    = if use_topology c && Py.truthy (destination_simple c)
      then List.filter (fun train =>
             Topology.check_stop_on_path
               (fst (Topology.get_ordered_stops navitia (line_id c) topo))
               (stop_id_simple c) (destination_simple c)
               (_extract_stif_id (destination_id train))) tr
      else tr).
  { unfold topology_pass. destruct (use_topology c && Py.truthy (destination_simple c));
      [|reflexivity].
    destruct (Topology.get_ordered_stops navitia (line_id c) topo) as [topo_data st].
    simpl. now rewrite filter_loop_filter. }
  destruct (topology_pass destination_id navitia c tr topo) as [tr' st'].
  simpl in Hpass. rewrite <- Hpass. clear Hpass.
  destruct (api_get_line_reports _ _) as [inf|]; [|discriminate].
  injection Hrun as <- _. cbn [DATA_TRAFFIC].
  pose proof (sorted_perm (schedule_key schedule)
                (List.filter (in_future schedule (utcd d)) tr')) as Hperm.
  split; [reflexivity|]. split; [exact Hperm|]. split.
  - intros x. rewrite <- in_future_iff, <- filter_In. split.
    + apply Permutation_in. exact Hperm.
    + apply Permutation_in. symmetry. exact Hperm.
  - apply not_later_key; [|apply sorted_sorted].
    rewrite Forall_forall. intros x Hx.
    apply list_elem_of_In in Hx. apply (Permutation_in _ Hperm) in Hx.
    apply filter_In in Hx as [_ Hx].
    apply in_future_iff in Hx as (t & Ht & _). rewrite Ht. eauto.
Qed.

(** A refresh that is due and whose two provider calls answer produces
    data. *)
Lemma refresh_succeeds (c : IDFMDataUpdateCoordinator) (d : Clock) (topo : Topology.State)
    tr inf :
  refresh_due c d = true ->
  api_get_traffic (stop_area_id c)
    (if use_topology c then None else destination c)
    (if use_topology c then None else direction c) (line_id c) = Some tr ->
  api_get_line_reports (line_id c) (exclude_elevators c) = Some inf ->
  exists data topo',
    _async_update_data schedule destination_id api_get_traffic api_get_line_reports
      navitia c d topo = (Updated data, topo')
    /\ DATA_INFO data = inf.
Proof.
  intros Hdue Htr Hinf. unfold _async_update_data. rewrite Hdue, Htr.
  destruct (topology_pass destination_id navitia c tr topo) as [tr' st'].
  rewrite Hinf. eauto.
Qed.

End Cycle.

(** The scenario, end to end: of five fetched departures, E goes to a
    terminus that is no key of the table, C has left, D has no schedule; B
    and A remain, B first. *)
Example scenario_refresh :
  fst (_async_update_data dep_schedule dep_destination_id traffic_now no_reports
         CacheSpec.source_line_L at_200_to_300 noon Topology.init)
  = Updated {| DATA_TRAFFIC := [dep_B; dep_A]; DATA_INFO := [] |}.
Proof. vm_compute. reflexivity. Qed.

(** Departures with the same schedule keep the order they were fetched in. *)
Example sort_is_stable :
  Py.sorted (schedule_key dep_schedule)
    [dep_A; {| dep_name := "B2"; dep_schedule := Some 1200%Z; dep_destination_id := None |};
     dep_B]
  = [{| dep_name := "B2"; dep_schedule := Some 1200%Z; dep_destination_id := None |};
     dep_B; dep_A].
Proof. reflexivity. Qed.

Lemma refresh_departures_witness :
  exists tr,
    traffic_now (stop_area_id at_200_to_300) None None "L" = Some tr
    /\ Permutation [dep_B; dep_A]
         (List.filter (in_future dep_schedule 1000)
            (List.filter (fun train =>
               Topology.check_stop_on_path
                 (fst (Topology.get_ordered_stops CacheSpec.source_line_L "L" Topology.init))
                 (Some "200") (Some "300")
                 (_extract_stif_id (dep_destination_id train))) tr))
    /\ StronglySorted (not_later dep_schedule) [dep_B; dep_A].
Proof.
  destruct (refresh_departures dep_schedule dep_destination_id traffic_now no_reports
              CacheSpec.source_line_L at_200_to_300 noon Topology.init
              (snd (_async_update_data dep_schedule dep_destination_id traffic_now no_reports
                      CacheSpec.source_line_L at_200_to_300 noon Topology.init))
              {| DATA_TRAFFIC := [dep_B; dep_A]; DATA_INFO := [] |})
    as (tr & Htr & _ & Hperm & _ & Hsorted).
  - vm_compute. reflexivity.
  - exists tr. split; [exact Htr|]. split; [exact Hperm | exact Hsorted].
Defined.

End Refresh.

(** ** The credential rotator, whatever the service answers *)

Module RotatorMore.
Import ApiWrapper RotatorSpec RotatorMoreSpec Rotator.

Lemma sweep_snoc (N i k : nat) :
  sweep N i (S k)
  = sweep N i k ++ [Invoke (rotate_times N k i); Rotate (rotate_times N k i) (rotate_times N (S k) i)].
Proof.
  unfold rotate_times. revert i. induction k as [|k IH]; intros i; [reflexivity|].
  change (sweep N i (S (S k)))
    with (Invoke i :: Rotate i ((i + 1) mod N) :: sweep N ((i + 1) mod N) (S k)).
  rewrite IH. cbn [sweep app]. now rewrite !Nat.iter_succ_r.
Qed.

Lemma invocations_attempts (N i k : nat) :
  i < N ->
  invocations (sweep N i k ++ [Invoke (rotate_times N k i)])
  = map (fun j => (i + j) mod N) (seq 0 (S k)).
Proof.
  intros Hi. rewrite invocations_app, invocations_sweep by exact Hi.
  unfold rotate_times. rewrite iter_rotate by exact Hi.
  now rewrite seq_S, map_app.
Qed.

Section Shape.
Context {IDFMApi World A : Type}.
Implicit Types (func : @Call IDFMApi World A) (st : @State IDFMApi World).

(** An attempt whose outcome is not the rate-limit signal ends the loop. *)
Lemma attempt_final func max_attempts attempts st client :
  attempts < max_attempts ->
  _clients (self st) !! _current_token_index (self st) = Some client ->
  rate_limited (fst (func client (remote st))) = false ->
  retry_loop func max_attempts attempts st
  = (fst (func client (remote st)), invoked st (snd (func client (remote st)))).
Proof.
  intros Hlt Hclient Hfinal.
  rewrite retry_loop_unfold, (call_current_client _ _ _ Hclient).
  destruct (lt_dec attempts max_attempts) as [_|]; [|contradiction].
  destruct (fst (func client (remote st))) as [a|[code message| | |name]]; try reflexivity.
  simpl in Hfinal. now rewrite Hfinal.
Qed.

Lemma rate_limited_inv (r : Outcome A) :
  rate_limited r = true -> exists message, r = Raise (RequestError 429 message).
Proof.
  destruct r as [a|[code message| | |name]]; try discriminate.
  simpl. intros H. apply Z.eqb_eq in H as ->. eauto.
Qed.

(** The course of the loop with [n] attempts left: [k] rate-limited attempts
    on consecutive credentials, and then either the attempts are used up, or
    one more attempt whose outcome is handed back. *)
Lemma retry_loop_shape func N n :
  forall attempts st,
    attempts + n = N ->
    List.length (_tokens (self st)) = N ->
    List.length (_clients (self st)) = N ->
    _current_token_index (self st) < N \/ n = 0 ->
    exists k,
      k <= n
      /\ _tokens (self (snd (retry_loop func N attempts st))) = _tokens (self st)
      /\ _clients (self (snd (retry_loop func N attempts st))) = _clients (self st)
      /\ _timeout (self (snd (retry_loop func N attempts st))) = _timeout (self st)
      /\ _current_token_index (self (snd (retry_loop func N attempts st)))
         = rotate_times N k (_current_token_index (self st))
      /\ (forall j, j < k ->
            exists client w,
              _clients (self st) !! rotate_times N j (_current_token_index (self st))
              = Some client
              /\ rate_limited (fst (func client w)) = true)
      /\ ((k = n
           /\ fst (retry_loop func N attempts st) = Raise AllCredentialsExhausted
           /\ trace (snd (retry_loop func N attempts st))
              = trace st ++ sweep N (_current_token_index (self st)) n)
          \/ (k < n
              /\ trace (snd (retry_loop func N attempts st))
                 = trace st ++ sweep N (_current_token_index (self st)) k
                     ++ [Invoke (rotate_times N k (_current_token_index (self st)))]
              /\ rate_limited (fst (retry_loop func N attempts st)) = false
              /\ exists client w,
                   _clients (self st) !! rotate_times N k (_current_token_index (self st))
                   = Some client
                   /\ func client w
                      = (fst (retry_loop func N attempts st),
                         remote (snd (retry_loop func N attempts st))))).
Proof.
  induction n as [|n IH]; intros attempts st Hsum Htok Hcl Hidx.
  - exists 0. rewrite retry_loop_unfold.
    destruct (lt_dec attempts N); [lia|]. simpl.
    repeat split; try lia. left. repeat split. now rewrite app_nil_r.
  - destruct Hidx as [Hidx|]; [|discriminate].
    assert (Hlt : attempts < N) by lia.
    destruct (lookup_lt_is_Some_2 (_clients (self st)) (_current_token_index (self st)))
      as [client Hclient]; [lia|].
    destruct (rate_limited (fst (func client (remote st)))) eqn:Erl.
    + destruct (rate_limited_inv _ Erl) as [message Hfail].
      rewrite (rate_limited_step func N attempts st client message Htok Hlt Hclient Hfail).
      set (j := (_current_token_index (self st) + 1) mod N).
      assert (Hj : j < N) by (apply Nat.mod_upper_bound; lia).
      set (st1 := rotated (invoked st (snd (func client (remote st)))) j).
      destruct (IH (S attempts) st1) as (k & Hk & Ht & Hc & Hto & Hi & Hbefore & Hcase);
        [lia | exact Htok | exact Hcl | now left |].
      change (_current_token_index (self st1)) with j in *.
      change (trace st1)
        with ((trace st ++ [Invoke (_current_token_index (self st))])
                ++ [Rotate (_current_token_index (self st)) j]) in *.
      change (_clients (self st1)) with (_clients (self st)) in *.
      assert (Hrot : forall m, rotate_times N m j
                               = rotate_times N (S m) (_current_token_index (self st))).
      { intros m. unfold rotate_times. now rewrite Nat.iter_succ_r. }
      exists (S k). split; [lia|]. split; [exact Ht|]. split; [exact Hc|].
      split; [exact Hto|]. split; [now rewrite Hi, Hrot|].
      split.
      { intros [|m] Hm.
        - exists client, (remote st). split; [exact Hclient | exact Erl].
        - rewrite <- Hrot. apply Hbefore. lia. }
      destruct Hcase as [(-> & Hr & Htr)|(Hkn & Htr & Hrl & Hcw)].
      * left. repeat split; [exact Hr|]. rewrite Htr. cbn [sweep]. fold j.
        now rewrite <- !app_assoc.
      * right. split; [lia|]. split; [|split; [exact Hrl|]].
        -- rewrite Htr, Hrot. cbn [sweep]. fold j. now rewrite <- !app_assoc.
        -- now rewrite <- Hrot.
    + rewrite (attempt_final func N attempts st client Hlt Hclient Erl).
      exists 0. cbn [fst snd invoked self remote trace rotate_times Nat.iter sweep app].
      split; [lia|]. repeat (split; [reflexivity|]).
      split; [intros j Hj; lia|].
      right. split; [lia|]. split; [reflexivity|]. split; [exact Erl|].
      exists client, (remote st). split; [exact Hclient|].
      now destruct (func client (remote st)).
Qed.

(** For a consistent pool the loop of a logical call runs as described by
    [retry_loop_shape] with all [N] attempts ahead. *)
Lemma call_shape func st :
  consistent (self st) ->
  exists k,
    k <= List.length (_tokens (self st))
    /\ _tokens (self (snd (_call_with_retry func st))) = _tokens (self st)
    /\ _clients (self (snd (_call_with_retry func st))) = _clients (self st)
    /\ _timeout (self (snd (_call_with_retry func st))) = _timeout (self st)
    /\ _current_token_index (self (snd (_call_with_retry func st)))
       = rotate_times (List.length (_tokens (self st))) k (_current_token_index (self st))
    /\ (forall j, j < k ->
          exists client w,
            _clients (self st)
              !! rotate_times (List.length (_tokens (self st))) j (_current_token_index (self st))
            = Some client
            /\ rate_limited (fst (func client w)) = true)
    /\ ((k = List.length (_tokens (self st))
         /\ fst (_call_with_retry func st) = Raise AllCredentialsExhausted
         /\ trace (snd (_call_with_retry func st))
            = trace st ++ sweep (List.length (_tokens (self st)))
                            (_current_token_index (self st)) (List.length (_tokens (self st))))
        \/ (k < List.length (_tokens (self st))
            /\ trace (snd (_call_with_retry func st))
               = trace st ++ sweep (List.length (_tokens (self st)))
                               (_current_token_index (self st)) k
                   ++ [Invoke (rotate_times (List.length (_tokens (self st))) k
                                 (_current_token_index (self st)))]
            /\ rate_limited (fst (_call_with_retry func st)) = false
            /\ exists client w,
                 _clients (self st)
                   !! rotate_times (List.length (_tokens (self st))) k
                        (_current_token_index (self st))
                 = Some client
                 /\ func client w
                    = (fst (_call_with_retry func st), remote (snd (_call_with_retry func st))))).
Proof.
  intros [Hcl Hidx]. unfold _call_with_retry.
  apply (retry_loop_shape func (List.length (_tokens (self st)))
           (List.length (_tokens (self st))) 0 st);
    [reflexivity | reflexivity | exact Hcl |].
  destruct Hidx as [H|H]; [now left | right; now rewrite H].
Qed.

Lemma rotate_times_lt (N k i : nat) : i < N -> rotate_times N k i < N.
Proof.
  intros Hi. unfold rotate_times. rewrite iter_rotate by exact Hi.
  apply Nat.mod_upper_bound. lia.
Qed.

(** A logical call keeps the tokens, the clients and the consistency of the
    pool. *)
Lemma call_preserves_pool func st :
  consistent (self st) ->
  _tokens (self (snd (_call_with_retry func st))) = _tokens (self st)
  /\ _clients (self (snd (_call_with_retry func st))) = _clients (self st)
  /\ consistent (self (snd (_call_with_retry func st))).
Proof.
  intros Hcons.
  destruct (call_shape func st Hcons) as (k & Hk & Ht & Hc & _ & Hi & _ & _).
  split; [exact Ht|]. split; [exact Hc|].
  destruct Hcons as [Hcl Hidx].
  split; [now rewrite Ht, Hc|]. rewrite Ht, Hi.
  destruct Hidx as [Hlt|Hnil]; [left; now apply rotate_times_lt | now right].
Qed.

(** X1.  Whatever the service answers, one logical call on a consistent pool of N
    credentials makes at most N remote calls, no two of them with the same
    credential, and leaves a consistent pool with the same tokens and
    clients. *)
Theorem retries_are_bounded func st :
  consistent (self st) ->
  exists events,
    trace (snd (_call_with_retry func st)) = trace st ++ events
    /\ List.length (invocations events) <= List.length (_tokens (self st))
    /\ NoDup (invocations events)
    /\ _tokens (self (snd (_call_with_retry func st))) = _tokens (self st)
    /\ _clients (self (snd (_call_with_retry func st))) = _clients (self st)
    /\ consistent (self (snd (_call_with_retry func st))).
Proof.
  intros Hcons.
  destruct (call_shape func st Hcons) as (k & Hk & Ht & Hc & _ & Hi & _ & Hcase).
  pose proof Hcons as [Hcl Hidx].
  set (N := List.length (_tokens (self st))) in *.
  set (i := _current_token_index (self st)) in *.
  assert (Hcons' : consistent (self (snd (_call_with_retry func st))))
    by apply (call_preserves_pool func st Hcons).
  destruct Hcase as [(-> & _ & Htr)|(Hkn & Htr & _)].
  - exists (sweep N i N). split; [exact Htr|].
    destruct Hidx as [Hlt|Hnil].
    + rewrite invocations_sweep by exact Hlt. rewrite length_map, length_seq.
      split; [lia|]. split; [now apply NoDup_offsets | auto].
    + assert (HN : N = 0) by (subst N; now rewrite Hnil).
      rewrite HN. simpl. split; [lia|]. split; [constructor | auto].
  - exists (sweep N i k ++ [Invoke (rotate_times N k i)]). split; [exact Htr|].
    assert (Hlt : i < N).
    { destruct Hidx as [Hlt|Hnil]; [exact Hlt|]. subst N. rewrite Hnil in Hkn.
      simpl in Hkn. lia. }
    rewrite invocations_attempts by exact Hlt. rewrite length_map, length_seq.
    split; [lia|]. split; [apply NoDup_offsets; lia | auto].
Qed.

(** X2.  The outcome of a logical call on a consistent pool is either what a
    remote call with a client of the pool returned or raised, not being the
    rate-limit signal, or the exhaustion error after one remote call per
    credential.  The wrapper's own [IndexError] and [ZeroDivisionError]
    never show. *)
Theorem outcome_provenance func st :
  consistent (self st) ->
  (exists client w,
      client ∈ _clients (self st)
      /\ func client w
         = (fst (_call_with_retry func st), remote (snd (_call_with_retry func st)))
      /\ rate_limited (fst (_call_with_retry func st)) = false)
  \/ (fst (_call_with_retry func st) = Raise AllCredentialsExhausted
      /\ exists events,
           trace (snd (_call_with_retry func st)) = trace st ++ events
           /\ List.length (invocations events) = List.length (_tokens (self st))).
Proof.
  intros Hcons.
  destruct (call_shape func st Hcons) as (k & Hk & _ & _ & _ & _ & _ & Hcase).
  destruct Hcase as [(-> & Hr & Htr)|(Hkn & _ & Hrl & client & w & Hclient & Hf)].
  - right. split; [exact Hr|]. eexists. split; [exact Htr|].
    destruct Hcons as [_ [Hlt|Hnil]].
    + rewrite invocations_sweep by exact Hlt. now rewrite length_map, length_seq.
    + now rewrite Hnil.
  - left. exists client, w. split; [|split; [exact Hf | exact Hrl]].
    eapply list_elem_of_lookup_2. exact Hclient.
Qed.

(** X3.  When the [k] credentials from the active one on are rate limited and the
    next one is not, the logical call makes [k + 1] remote calls, hands back
    the outcome of the last, and leaves that credential active. *)
Theorem first_free_credential_serves func st (k : nat) :
  consistent (self st) ->
  k < List.length (_tokens (self st)) ->
  (forall j client w,
      j < k ->
      _clients (self st)
        !! ((_current_token_index (self st) + j) mod List.length (_tokens (self st)))
      = Some client ->
      rate_limited (fst (func client w)) = true) ->
  (forall client w,
      _clients (self st)
        !! ((_current_token_index (self st) + k) mod List.length (_tokens (self st)))
      = Some client ->
      rate_limited (fst (func client w)) = false) ->
  _current_token_index (self (snd (_call_with_retry func st)))
  = (_current_token_index (self st) + k) mod List.length (_tokens (self st))
  /\ (exists events,
        trace (snd (_call_with_retry func st)) = trace st ++ events
        /\ invocations events
           = map (fun j => (_current_token_index (self st) + j)
                             mod List.length (_tokens (self st))) (seq 0 (S k)))
  /\ exists client w,
       _clients (self st)
         !! ((_current_token_index (self st) + k) mod List.length (_tokens (self st)))
       = Some client
       /\ func client w
          = (fst (_call_with_retry func st), remote (snd (_call_with_retry func st))).
Proof.
  intros Hcons Hk Hlimited Hfree.
  destruct (call_shape func st Hcons) as (k' & Hk' & _ & _ & _ & Hi & Hbefore & Hcase).
  set (N := List.length (_tokens (self st))) in *.
  set (i := _current_token_index (self st)) in *.
  assert (Hlt : i < N).
  { destruct Hcons as [_ [Hlt|Hnil]]; [exact Hlt|]. subst N. rewrite Hnil in Hk.
    simpl in Hk. lia. }
  assert (Hrot : forall m, rotate_times N m i = (i + m) mod N).
  { intros m. unfold rotate_times. now apply iter_rotate. }
  assert (Hkk : k' = k).
  { destruct (Nat.lt_trichotomy k' k) as [Hless|[Heq|Hmore]]; [|exact Heq|].
    - destruct Hcase as [(-> & _)|(_ & _ & Hrl & client & w & Hclient & Hf)]; [lia|].
      rewrite Hrot in Hclient.
      pose proof (Hlimited k' client w Hless Hclient) as Hl.
      rewrite Hf in Hl. simpl in Hl. congruence.
    - destruct (Hbefore k Hmore) as (client & w & Hclient & Hl).
      rewrite Hrot in Hclient. rewrite (Hfree client w Hclient) in Hl. discriminate. }
  subst k'.
  destruct Hcase as [(HkN & _)|(_ & Htr & _ & client & w & Hclient & Hf)]; [lia|].
  split; [now rewrite Hi, Hrot|]. split.
  - eexists. split; [exact Htr|]. now apply invocations_attempts.
  - exists client, w. rewrite <- Hrot. auto.
Qed.

(** X4.  With an empty token list the retried methods fail with the exhaustion
    error and the direct ones with [IndexError]; no remote call is made and
    the state is untouched. *)
Theorem empty_pool func st :
  _tokens (self st) = [] -> _clients (self st) = [] ->
  _call_with_retry func st = (Raise AllCredentialsExhausted, st)
  /\ call_current func st = (Raise IndexError, st).
Proof.
  intros Htok Hcl. split.
  - unfold _call_with_retry. rewrite retry_loop_unfold, Htok. reflexivity.
  - unfold call_current. now rewrite Hcl.
Qed.

(** X5.  Through any sequence of logical calls on a freshly constructed wrapper,
    the tokens and the clients stay those of the construction and the pool
    stays consistent: the active index always designates a client. *)
Theorem pool_is_preserved (new_client : string -> Z -> IDFMApi) (tokens : list string)
    (timeout : Z) (w : World) (funcs : list (@Call IDFMApi World A)) :
  _tokens (self (logical_calls funcs (fresh new_client tokens timeout w))) = tokens
  /\ _clients (self (logical_calls funcs (fresh new_client tokens timeout w)))
     = map (fun token => new_client token timeout) tokens
  /\ consistent (self (logical_calls funcs (fresh new_client tokens timeout w)))
  /\ (tokens <> [] ->
      is_Some (_clients (self (logical_calls funcs (fresh new_client tokens timeout w)))
                 !! _current_token_index
                      (self (logical_calls funcs (fresh new_client tokens timeout w))))).
Proof.
  assert (Hgen : forall (funcs : list (@Call IDFMApi World A)) st,
            consistent (self st) ->
            _tokens (self (logical_calls funcs st)) = _tokens (self st)
            /\ _clients (self (logical_calls funcs st)) = _clients (self st)
            /\ consistent (self (logical_calls funcs st))).
  { clear funcs. induction funcs as [|func funcs IH]; intros st Hcons; [auto|].
    destruct (call_preserves_pool func st Hcons) as (Ht & Hc & Hcons').
    destruct (IH _ Hcons') as (Ht' & Hc' & Hcons'').
    cbn [logical_calls fold_left]. fold (logical_calls funcs (snd (_call_with_retry func st))).
    rewrite Ht', Hc'. auto. }
  destruct (Hgen funcs (fresh new_client tokens timeout w) (init_consistent _ _ _))
    as (Ht & Hc & Hcons).
  split; [exact Ht|]. split; [exact Hc|]. split; [exact Hcons|].
  intros Hne. apply lookup_lt_is_Some_2.
  destruct Hcons as [Hlen [Hlt|Hnil]].
  - now rewrite Hlen.
  - rewrite Ht in Hnil. contradiction.
Qed.

(** X6.  [_rotate_key] is a round robin over a non-empty pool: [k] calls move the
    active index [k] places on, wrapping around; a full turn of N calls
    brings it back, and no shorter turn does. *)
Theorem rotation_is_round_robin st (k : nat) :
  consistent (self st) -> _tokens (self st) <> [] ->
  _current_token_index (self (rotate_n k st))
  = (_current_token_index (self st) + k) mod List.length (_tokens (self st))
  /\ _current_token_index (self (rotate_n (List.length (_tokens (self st))) st))
     = _current_token_index (self st)
  /\ (0 < k < List.length (_tokens (self st)) ->
      _current_token_index (self (rotate_n k st)) <> _current_token_index (self st)).
Proof.
  intros [_ Hidx] Hne.
  destruct Hidx as [Hlt|Hnil]; [|contradiction].
  set (N := List.length (_tokens (self st))) in *.
  assert (Hgen : forall m,
            _tokens (self (rotate_n m st)) = _tokens (self st)
            /\ _current_token_index (self (rotate_n m st))
               = rotate_times N m (_current_token_index (self st))).
  { induction m as [|m [IHt IHi]]; [split; reflexivity|].
    change (rotate_n (S m) st) with (snd (_rotate_key (rotate_n m st))).
    rewrite rotate_key_pool by (rewrite IHt; fold N; lia).
    cbn [snd rotated self _tokens _current_token_index].
    rewrite IHt, IHi. split; reflexivity. }
  assert (Hat : forall m, _current_token_index (self (rotate_n m st))
                          = (_current_token_index (self st) + m) mod N).
  { intros m. destruct (Hgen m) as [_ ->]. unfold rotate_times. now apply iter_rotate. }
  split; [apply Hat|]. split.
  - rewrite Hat. rewrite <- (Nat.mul_1_l N) at 1.
    rewrite Nat.Div0.mod_add. now apply Nat.mod_small.
  - intros Hk Hback. rewrite Hat in Hback.
    rewrite <- (Nat.mod_small _ N Hlt) in Hback at 2.
    rewrite <- (Nat.add_0_r (_current_token_index (self st))) in Hback at 2.
    apply offset_inj in Hback; lia.
Qed.

End Shape.

Lemma rotation_is_round_robin_witness :
  _current_token_index
    (self (rotate_n 3 (fresh token_client ["key-A"; "key-B"; "key-C"] 300 tt))) = 0.
Proof.
  apply (rotation_is_round_robin (fresh token_client ["key-A"; "key-B"; "key-C"] 300 tt) 3).
  - split; [reflexivity | left; simpl; lia].
  - discriminate.
Defined.

Lemma retries_are_bounded_witness :
  exists events,
    trace (snd (_call_with_retry third_key_on
                  (fresh token_client ["key-A"; "key-B"; "key-C"] 300 tt)))
    = [] ++ events
    /\ List.length (invocations events) <= 3
    /\ NoDup (invocations events).
Proof.
  destruct (retries_are_bounded third_key_on
              (fresh token_client ["key-A"; "key-B"; "key-C"] 300 tt))
    as (events & H1 & H2 & H3 & _).
  - split; [reflexivity | left; simpl; lia].
  - exists events. auto.
Defined.

Lemma outcome_provenance_witness :
  (exists client w,
      client ∈ ["key-A"; "key-B"; "key-C"]
      /\ third_key_on client w
         = (fst (_call_with_retry third_key_on
                   (fresh token_client ["key-A"; "key-B"; "key-C"] 300 tt)),
            remote (snd (_call_with_retry third_key_on
                           (fresh token_client ["key-A"; "key-B"; "key-C"] 300 tt))))
      /\ rate_limited (fst (_call_with_retry third_key_on
                              (fresh token_client ["key-A"; "key-B"; "key-C"] 300 tt)))
         = false)
  \/ (fst (_call_with_retry third_key_on
            (fresh token_client ["key-A"; "key-B"; "key-C"] 300 tt))
      = Raise AllCredentialsExhausted
      /\ exists events,
           trace (snd (_call_with_retry third_key_on
                         (fresh token_client ["key-A"; "key-B"; "key-C"] 300 tt)))
           = [] ++ events
           /\ List.length (invocations events) = 3).
Proof.
  apply (outcome_provenance third_key_on
           (fresh token_client ["key-A"; "key-B"; "key-C"] 300 tt)).
  split; [reflexivity | left; simpl; lia].
Defined.

Lemma first_free_credential_serves_witness :
  _current_token_index
    (self (snd (_call_with_retry third_key_on
                  (fresh token_client ["key-A"; "key-B"; "key-C"] 300 tt)))) = 2.
Proof.
  apply (first_free_credential_serves third_key_on
           (fresh token_client ["key-A"; "key-B"; "key-C"] 300 tt) 2).
  - split; [reflexivity | left; simpl; lia].
  - simpl. lia.
  - intros [|[|j]] client w Hj Hclient; [| |lia]; injection Hclient as <-; reflexivity.
  - intros client w Hclient. injection Hclient as <-. reflexivity.
Defined.

Lemma empty_pool_witness :
  _call_with_retry (@always_limited Z) (fresh token_client [] 300 tt)
  = (Raise AllCredentialsExhausted, fresh token_client [] 300 tt).
Proof.
  apply (empty_pool always_limited (fresh token_client [] 300 tt)); reflexivity.
Defined.

End RotatorMore.

(** ** Normalisation, further *)

Module NormalisationMore.
Import Py Spec Normalisation.

Lemma colon_free_empty : colon_free "".
Proof. reflexivity. Qed.

Lemma colon_free_snoc (s : string) (c : ascii) :
  colon_free s -> Ascii.eqb ":" c = false -> colon_free (s +:+ String c "").
Proof.
  intros Hs Hc. induction s as [|d s IH].
  - apply colon_free_cons. split; [exact Hc | reflexivity].
  - apply colon_free_cons in Hs as [Hd Hs]. rewrite app_cons.
    apply colon_free_cons. split; [exact Hd | now apply IH].
Qed.

(** Every field of a split at colons is free of colons. *)
Lemma split_fields_colon_free (s : string) : forall cur,
  colon_free cur -> Forall colon_free (split_scan ":" 0 cur s).
Proof.
  induction s as [|c s IH]; intros cur Hcur.
  - repeat constructor. exact Hcur.
  - rewrite split_colon_step. destruct (Ascii.eqb ":" c) eqn:Ec.
    + constructor; [exact Hcur | apply IH, colon_free_empty].
    + apply IH. now apply colon_free_snoc.
Qed.

Lemma split_scan_length (sep : string) (s : string) : forall skip cur,
  1 <= List.length (split_scan sep skip cur s).
Proof.
  induction s as [|c s IH]; intros skip cur; simpl; [lia|].
  destruct skip; [|apply IH].
  destruct (startswith sep (String c s)); [simpl; lia | apply IH].
Qed.

(** A string with a colon splits into at least two fields. *)
Lemma split_colon_two (s : string) : forall cur,
  contains ":" s = true -> 2 <= List.length (split_scan ":" 0 cur s).
Proof.
  induction s as [|c s IH]; intros cur H; [discriminate|].
  rewrite split_colon_step. destruct (Ascii.eqb ":" c) eqn:Ec.
  - pose proof (split_scan_length ":" s 0 ""). simpl. lia.
  - apply IH. destruct (contains ":" s) eqn:Es; [reflexivity|].
    assert (Hfree : colon_free (String c s)) by (apply colon_free_cons; auto).
    unfold colon_free in Hfree. congruence.
Qed.

Lemma item_m2_elem {A} (l : list A) (x : A) : item_m2 l = Some x -> x ∈ l.
Proof.
  unfold item_m2. destruct (List.length l <? 2)%nat; [discriminate|].
  apply list_elem_of_lookup_2.
Qed.

Lemma item_m2_is_Some {A} (l : list A) : 2 <= List.length l -> is_Some (item_m2 l).
Proof.
  intros H. unfold item_m2.
  destruct (Nat.ltb_spec (List.length l) 2) as [|_]; [lia|].
  apply lookup_lt_is_Some_2. lia.
Qed.

Lemma item_m2_None_short {A} (l : list A) : item_m2 l = None -> List.length l < 2.
Proof.
  intros H. destruct (Nat.lt_ge_cases (List.length l) 2) as [|Hge]; [assumption|].
  destruct (item_m2_is_Some l Hge) as [x Hx]. congruence.
Qed.

Lemma second_to_last_colon_free (s r : string) :
  item_m2 (split ":" s) = Some r -> colon_free r.
Proof.
  intros H. apply item_m2_elem in H.
  pose proof (split_fields_colon_free s "" colon_free_empty) as Hall.
  rewrite Forall_forall in Hall. now apply Hall.
Qed.

Lemma topology_result_colon_free (navitia_id r : string) :
  Topology._extract_stif_id navitia_id = Some r -> colon_free r.
Proof.
  unfold Topology._extract_stif_id.
  destruct (if contains "IDFM:" navitia_id then _ else _) as [stif_part|]; [|discriminate].
  apply second_to_last_colon_free.
Qed.

Lemma coordinator_result_colon_free (full_id : option string) (r : string) :
  Coordinator._extract_stif_id full_id = Some r -> colon_free r.
Proof.
  unfold Coordinator._extract_stif_id.
  destruct (truthy full_id); [|discriminate].
  destruct full_id as [s|]; [|discriminate].
  destruct (item_m2 (split ":" s)) as [code|] eqn:E.
  - intros [= <-]. now apply (second_to_last_colon_free s).
  - intros [= <-]. apply item_m2_None_short in E.
    destruct (contains ":" s) eqn:Es; [|exact Es].
    pose proof (split_colon_two s "" Es). unfold split in E. lia.
Qed.

(** X7.  Whatever the input, a normalised identifier contains no colon: this
    holds for the topology's normalisation and for the coordinator's. *)
Theorem normalised_id_has_no_colon (navitia_id : string) (full_id : option string)
    (r : string) :
  (Topology._extract_stif_id navitia_id = Some r -> colon_free r)
  /\ (Coordinator._extract_stif_id full_id = Some r -> colon_free r).
Proof.
  split; [apply topology_result_colon_free | apply coordinator_result_colon_free].
Qed.

(** X8.  The coordinator's normalisation leaves a non-empty result of its own
    unchanged: normalising twice is normalising once. *)
Theorem coordinator_normalisation_idempotent (full_id : option string) (r : string) :
  Coordinator._extract_stif_id full_id = Some r ->
  r <> "" ->
  Coordinator._extract_stif_id (Some r) = Some r.
Proof.
  intros Hr Hne.
  pose proof (coordinator_result_colon_free full_id r Hr) as Hfree.
  unfold Coordinator._extract_stif_id.
  destruct r as [|c r]; [contradiction|]. cbn [truthy].
  unfold split. now rewrite (split_colon_free _ "" Hfree).
Qed.

(** X9.  On an identifier that has a colon and not the marker ["IDFM:"], the two
    normalisations agree. *)
Theorem normalisations_agree (s : string) :
  contains ":" s = true ->
  contains "IDFM:" s = false ->
  Topology._extract_stif_id s = Coordinator._extract_stif_id (Some s).
Proof.
  intros Hcolon Hmarker.
  unfold Topology._extract_stif_id, Coordinator._extract_stif_id. rewrite Hmarker.
  destruct s as [|c s]; [discriminate|]. cbn [truthy].
  destruct (item_m2_is_Some (split ":" (String c s))) as [code Hcode].
  { apply split_colon_two. exact Hcolon. }
  now rewrite Hcode.
Qed.

(** *** Splitting at a separator of several characters *)

Lemma split_scan_cons (sep : string) (c : ascii) (s cur : string) :
  split_scan sep 0 cur (String c s)
  = if startswith sep (String c s)
    then cur :: split_scan sep (String.length sep - 1) "" s
    else split_scan sep 0 (cur +:+ String c "") s.
Proof. reflexivity. Qed.

(** Without an occurrence of the separator there is one field. *)
Lemma split_no_sep (sep s : string) : forall cur,
  contains sep s = false -> split_scan sep 0 cur s = [cur +:+ s].
Proof.
  induction s as [|c s IH]; intros cur H.
  - simpl. now rewrite app_empty_r.
  - cbn [contains] in H. apply orb_false_iff in H as [Hhere Hlater].
    rewrite split_scan_cons, Hhere, (IH _ Hlater), app_assoc. reflexivity.
Qed.

(** The characters of a recognised separator are passed over. *)
Lemma split_skip (sep X R cur : string) :
  split_scan sep (String.length X) cur (X +:+ R) = split_scan sep 0 cur R.
Proof.
  induction X as [|c X IH]; [reflexivity|].
  rewrite app_cons. exact IH.
Qed.

Lemma startswith_refl_app (pre rest : string) : startswith pre (pre +:+ rest) = true.
Proof.
  induction pre as [|c pre IH]; [reflexivity|].
  rewrite app_cons. cbn [startswith]. now rewrite Ascii.eqb_refl.
Qed.

(** Whether a long enough string starts with [pre] does not depend on what
    follows it. *)
Lemma startswith_app_long (pre : string) : forall s y,
  String.length pre <= String.length s ->
  startswith pre (s +:+ y) = startswith pre s.
Proof.
  induction pre as [|a pre IH]; intros s y Hlen; [reflexivity|].
  destruct s as [|b s]; [simpl in Hlen; lia|].
  rewrite app_cons. cbn [startswith]. destruct (Ascii.eqb a b); [|reflexivity].
  apply IH. simpl in Hlen. lia.
Qed.

Lemma length_app_string (s t : string) :
  String.length (s +:+ t) = String.length s + String.length t.
Proof.
  induction s as [|c s IH]; [reflexivity|]. rewrite app_cons. simpl. now rewrite IH.
Qed.

(** The first field ends where the separator [sep' ++ z] first occurs. *)
Lemma split_first_occurrence (sep' : string) (z : ascii) (P R : string) : forall cur,
  contains (sep' +:+ String z "") (P +:+ sep') = false ->
  split_scan (sep' +:+ String z "") 0 cur (P +:+ (sep' +:+ String z "") +:+ R)
  = (cur +:+ P) :: split_scan (sep' +:+ String z "") 0 "" R.
Proof.
  set (sep := sep' +:+ String z "").
  induction P as [|c P IH]; intros cur Hfirst.
  - change ("" +:+ sep +:+ R) with (sep +:+ R). rewrite app_empty_r.
    assert (Hsep : exists a t, sep = String a t).
    { subst sep. destruct sep' as [|a t]; [exists z, "" | exists a, (t +:+ String z "")];
        reflexivity. }
    destruct Hsep as (a & t & Hsep).
    pose proof (startswith_refl_app sep R) as Hstart.
    rewrite Hsep in Hstart |- *. rewrite app_cons in Hstart |- *.
    rewrite split_scan_cons, Hstart.
    change (String.length (String a t) - 1) with (String.length t - 0).
    now rewrite Nat.sub_0_r, split_skip.
  - rewrite app_cons in Hfirst. cbn [contains] in Hfirst.
    apply orb_false_iff in Hfirst as [Hhere Hlater].
    rewrite app_cons, split_scan_cons.
    assert (Hno : startswith sep (String c (P +:+ sep +:+ R)) = false).
    { rewrite <- Hhere.
      replace (String c (P +:+ sep +:+ R))
        with (String c (P +:+ sep') +:+ (String z "" +:+ R)).
      - apply startswith_app_long. subst sep.
        rewrite length_app_string. simpl. rewrite length_app_string. lia.
      - rewrite app_cons. f_equal. subst sep. now rewrite !app_assoc. }
    rewrite Hno, (IH _ Hlater), app_assoc. reflexivity.
Qed.

(** X10.  The topology's normalisation strips an authority prefix: when the
    marker ["IDFM:"] first occurs right after [P] and not again in [R], the
    identifier [P ++ "IDFM:" ++ R] normalises as [R] does. *)
Theorem authority_prefix_is_stripped (P R : string) :
  contains "IDFM:" (P +:+ "IDFM") = false ->
  contains "IDFM:" R = false ->
  Topology._extract_stif_id (P +:+ "IDFM:" +:+ R) = Topology._extract_stif_id R.
Proof.
  intros Hfirst Hrest. unfold Topology._extract_stif_id.
  rewrite (contains_app_r "IDFM:" P ("IDFM:" +:+ R)) by apply contains_prefixed.
  rewrite Hrest. unfold split at 1.
  pose proof (split_first_occurrence "IDFM" ":" P R "" Hfirst) as Hsplit.
  change ("IDFM" +:+ ":") with "IDFM:" in Hsplit. change ("" +:+ P) with P in Hsplit.
  rewrite Hsplit. now rewrite (split_no_sep "IDFM:" R "" Hrest).
Qed.

Lemma coordinator_normalisation_idempotent_witness :
  Coordinator._extract_stif_id (Some "43114") = Some "43114".
Proof.
  apply (coordinator_normalisation_idempotent (Some "STIF:StopPoint:Q:43114:") "43114").
  - reflexivity.
  - discriminate.
Defined.

Lemma normalisations_agree_witness :
  Topology._extract_stif_id "STIF:StopPoint:Q:43114:"
  = Coordinator._extract_stif_id (Some "STIF:StopPoint:Q:43114:").
Proof.
  apply (normalisations_agree "STIF:StopPoint:Q:43114:"); reflexivity.
Defined.

Lemma authority_prefix_is_stripped_witness :
  Topology._extract_stif_id "stop_point:IDFM:STIF:StopPoint:Q:43114:"
  = Topology._extract_stif_id "STIF:StopPoint:Q:43114:".
Proof.
  apply (authority_prefix_is_stripped "stop_point:" "STIF:StopPoint:Q:43114:"); reflexivity.
Defined.

End NormalisationMore.

(** ** Normalisation of composite identifiers *)

Module NormalisationClaim.
Import Py Spec Normalisation NormalisationMore.

(** The fields of an identifier that ends in [:CODE:]. *)
Lemma split_final_code (P CODE : string) :
  colon_free CODE ->
  split ":" (P +:+ ":" +:+ CODE +:+ ":") = split ":" P ++ [CODE; ""].
Proof.
  intros H. unfold split. rewrite split_colon_app.
  replace (CODE +:+ ":") with (CODE +:+ ":" +:+ "") by reflexivity.
  now rewrite split_colon_app, (split_colon_free CODE "" H).
Qed.

Lemma item_m2_app_r {A} (l1 l2 : list A) :
  2 <= List.length l2 -> item_m2 (l1 ++ l2) = item_m2 l2.
Proof.
  intros H. unfold item_m2. rewrite length_app.
  destruct (Nat.ltb_spec (List.length l1 + List.length l2) 2) as [|_]; [lia|].
  destruct (Nat.ltb_spec (List.length l2) 2) as [|_]; [lia|].
  rewrite lookup_app_r by lia. f_equal. lia.
Qed.

(** In a composite identifier, what follows a marker that is not at the very
    end has [CODE] as its second-to-last field. *)
Lemma code_after_marker (A B C CODE P R : string) :
  colon_free CODE ->
  composite A B C CODE = P +:+ "IDFM:" +:+ R ->
  R <> "" ->
  item_m2 (split ":" R) = Some CODE.
Proof.
  intros Hcode Hshape Hne.
  assert (Hfields : split ":" (P +:+ "IDFM") ++ split ":" R
                    = split ":" (A +:+ ":" +:+ B +:+ ":" +:+ C) ++ [CODE; ""]).
  { rewrite <- (split_final_code _ CODE Hcode), <- composite_shape, Hshape.
    unfold split. rewrite <- split_colon_app. f_equal.
    now rewrite app_assoc. }
  destruct (Nat.lt_ge_cases (List.length (split ":" R)) 2) as [Hshort|Hlong].
  - exfalso. apply Hne.
    assert (Hfree : colon_free R).
    { destruct (contains ":" R) eqn:E; [|exact E].
      pose proof (split_colon_two R "" E). unfold split in Hshort. lia. }
    unfold split in Hfields at 2. rewrite (split_colon_free R "" Hfree) in Hfields.
    change ("" +:+ R) with R in Hfields.
    apply (f_equal last) in Hfields.
    rewrite !last_app in Hfields. simpl in Hfields. congruence.
  - rewrite <- (item_m2_app_r (split ":" (P +:+ "IDFM")) _ Hlong), Hfields.
    apply item_m2_app.
Qed.

(** C3, amended.  For a composite [A:B:C:CODE:] whose [CODE] has no colon,
    the coordinator's normalisation yields [CODE]; the topology's yields
    [CODE] when the marker ["IDFM:"] does not occur in the identifier, and
    also when it occurs exactly once and not at the very end, everything up
    to the marker being stripped first.  For an input [s] without any colon,
    the topology's normalisation yields the absent value, while the
    coordinator's returns [s] itself (absent only for an empty or absent
    input).  An absent identifier in any position makes the path check
    answer false. *)
Theorem normalisation_spec (A B C CODE s : string) :
  colon_free CODE -> colon_free s ->
  Coordinator._extract_stif_id (Some (composite A B C CODE)) = Some CODE
  /\ (contains "IDFM:" (composite A B C CODE) = false ->
      Topology._extract_stif_id (composite A B C CODE) = Some CODE)
  /\ (forall P R,
        composite A B C CODE = P +:+ "IDFM:" +:+ R ->
        contains "IDFM:" (P +:+ "IDFM") = false ->
        contains "IDFM:" R = false ->
        R <> "" ->
        Topology._extract_stif_id (composite A B C CODE) = Some CODE)
  /\ Topology._extract_stif_id s = None
  /\ Coordinator._extract_stif_id (Some s) = (if truthy (Some s) then Some s else None)
  /\ Coordinator._extract_stif_id None = None
  /\ (forall topology a b,
        Topology.check_stop_on_path topology None a b = false
        /\ Topology.check_stop_on_path topology a None b = false
        /\ Topology.check_stop_on_path topology a b None = false).
Proof.
  intros Hcode Hs.
  destruct (normalisation_without_marker A B C CODE s Hcode Hs)
    as (H1 & H2 & H3 & H4 & H5 & H6).
  split; [exact H1|]. split; [exact H2|]. split; [|auto].
  intros P R Hshape Hfirst Hrest Hne.
  pose proof (code_after_marker A B C CODE P R Hcode Hshape Hne) as Hfield.
  rewrite Hshape. unfold Topology._extract_stif_id.
  rewrite (contains_app_r "IDFM:" P ("IDFM:" +:+ R)) by apply contains_prefixed.
  unfold split at 1.
  pose proof (split_first_occurrence "IDFM" ":" P R "" Hfirst) as Hsplit.
  change ("IDFM" +:+ ":") with "IDFM:" in Hsplit. change ("" +:+ P) with P in Hsplit.
  rewrite Hsplit, (split_no_sep "IDFM:" R "" Hrest).
  exact Hfield.
Qed.

Lemma normalisation_spec_witness :
  Coordinator._extract_stif_id (Some "stop_point:IDFM:STIF:StopPoint:Q:43114:")
  = Some "43114"
  /\ Topology._extract_stif_id "stop_point:IDFM:STIF:StopPoint:Q:43114:" = Some "43114"
  /\ Topology._extract_stif_id "43114" = None.
Proof.
  pose proof (normalisation_spec "stop_point:IDFM:STIF" "StopPoint" "Q" "43114" "43114"
                eq_refl eq_refl) as (H1 & _ & H3 & H4 & _).
  refine (conj H1 (conj (H3 "stop_point:" "STIF:StopPoint:Q:43114:" eq_refl eq_refl eq_refl _)
                        H4)).
  discriminate.
Defined.

End NormalisationClaim.

(** ** The topology cache, further *)

Module CacheMore.
Import Py Topology Spec CacheSpec CacheMoreSpec Cache NormalisationMore.

Lemma collect_stops_ok (stop_points : list string) : forall ordered_stops,
  Forall stop_ok ordered_stops -> Forall stop_ok (collect_stops stop_points ordered_stops).
Proof.
  induction stop_points as [|sp rest IH]; intros acc Hacc; simpl; [exact Hacc|].
  destruct (_extract_stif_id sp) as [id|] eqn:E; [|now apply IH].
  destruct id as [|c id]; simpl; [now apply IH|].
  apply IH. apply Forall_app. split; [exact Hacc|].
  constructor; [|constructor]. split; [discriminate|].
  now apply (topology_result_colon_free sp).
Qed.

Lemma add_route_well_formed (topology : TopologyTable) (ordered_stops : list string) :
  well_formed topology -> Forall stop_ok ordered_stops ->
  well_formed (add_route topology ordered_stops).
Proof.
  intros Hwf Hstops. unfold add_route, item_m1.
  destruct (last ordered_stops) as [terminus|] eqn:Elast; [|exact Hwf].
  destruct (topology !! terminus) as [routes|] eqn:Eold; intros t rs Hrs.
  - destruct (decide (terminus = t)) as [->|Hne].
    + rewrite lookup_insert_eq in Hrs. injection Hrs as <-.
      destruct (Hwf t routes Eold) as [_ Hall]. split.
      * destruct routes; discriminate.
      * apply Forall_app. split; [exact Hall|]. constructor; [|constructor]. auto.
    + rewrite lookup_insert_ne in Hrs by exact Hne. now apply Hwf.
  - destruct (decide (terminus = t)) as [->|Hne].
    + rewrite lookup_insert_eq in Hrs. injection Hrs as <-. split; [discriminate|].
      constructor; [|constructor]. auto.
    + rewrite lookup_insert_ne in Hrs by exact Hne. now apply Hwf.
Qed.

Lemma well_formed_empty : well_formed ∅.
Proof. intros t routes H. rewrite lookup_empty in H. discriminate. Qed.

(** How the table grows: the routes ending at [t] are appended, in the order
    they come, to what the table held under [t]. *)
Lemma add_routes_lookup (sequences : list (list string)) (t : string) :
  forall topology : TopologyTable,
    fold_left add_route sequences topology !! t
    = match topology !! t with
      | Some routes => Some (routes ++ List.filter (ends_at t) sequences)
      | None =>
          match List.filter (ends_at t) sequences with
          | [] => None
          | routes => Some routes
          end
      end.
Proof.
  induction sequences as [|r rest IH]; intros topology.
  - simpl. destruct (topology !! t) as [routes|]; [now rewrite app_nil_r | reflexivity].
  - cbn [fold_left List.filter]. rewrite IH. unfold add_route, item_m1, ends_at.
    destruct (last r) as [x|]; [|reflexivity].
    destruct (String.eqb_spec x t) as [->|Hne].
    + destruct (topology !! t) as [routes|] eqn:E; rewrite lookup_insert_eq.
      * now rewrite <- app_assoc.
      * reflexivity.
    + destruct (topology !! x) as [routes|]; now rewrite lookup_insert_ne by exact Hne.
Qed.

(** X11.  Starting from the empty table, the routes found under a terminus are
    the fetched stop sequences that end there, in the order of the fetch;
    a terminus where none ends is no key. *)
Theorem routes_grouped_by_terminus (sequences : list (list string)) (t : string) :
  fold_left add_route sequences (∅ : TopologyTable) !! t
  = match List.filter (ends_at t) sequences with
    | [] => None
    | routes => Some routes
    end.
Proof. rewrite add_routes_lookup, lookup_empty. reflexivity. Qed.

Section Source.
Variable navitia : list string -> string -> HttpReply.

Lemma routes_fetch_well_formed (routes : list string) : forall topology st,
  well_formed topology -> well_formed (fst (routes_fetch navitia routes topology st)).
Proof.
  induction routes as [|route_id rest IH]; intros topology st Hwf; simpl; [exact Hwf|].
  destruct (_navitia_request navitia (points_url route_id) st) as [points_data st1].
  destruct points_data as [doc|]; [|now apply IH].
  destruct (doc !! "stop_points") as [stop_points|]; [|now apply IH].
  apply IH, add_route_well_formed; [exact Hwf|]. apply collect_stops_ok. constructor.
Qed.

(** X12.  Every table the resolver returns or caches is well formed: each key
    holds at least one route, each route ends at the key it is stored under,
    and every stop is a non-empty identifier without colon. *)
Theorem fetched_table_well_formed (line_id : string) (st : State) :
  cache_well_formed st ->
  well_formed (fst (get_ordered_stops navitia line_id st))
  /\ cache_well_formed (snd (get_ordered_stops navitia line_id st)).
Proof.
  intros Hcache. unfold get_ordered_stops.
  destruct (_topology_cache st !! line_id) as [cached|] eqn:Ehit.
  - split; [now apply (Hcache line_id) | exact Hcache].
  - pose proof (navitia_request_cache navitia (routes_url line_id) st) as Hc.
    destruct (_navitia_request navitia (routes_url line_id) st) as [routes_data st1].
    simpl in Hc.
    assert (Hcache1 : cache_well_formed st1).
    { intros l tb H. rewrite Hc in H. now apply (Hcache l). }
    destruct routes_data as [doc|]; [|split; [apply well_formed_empty | exact Hcache1]].
    destruct (doc !! "routes") as [routes|];
      [|split; [apply well_formed_empty | exact Hcache1]].
    pose proof (routes_fetch_well_formed routes ∅ st1 well_formed_empty) as Hwf.
    destruct (routes_fetch_state navitia routes ∅ st1) as [Hc2 _].
    destruct (routes_fetch navitia routes ∅ st1) as [topology st2].
    simpl in *. split; [exact Hwf|].
    intros l tb H. cbn [_topology_cache] in H.
    destruct (decide (line_id = l)) as [->|Hne].
    + rewrite lookup_insert_eq in H. now injection H as <-.
    + rewrite lookup_insert_ne in H by exact Hne. rewrite Hc2 in H. now apply (Hcache1 l).
Qed.



End Source.

Lemma fetched_table_well_formed_witness :
  well_formed (fst (get_ordered_stops source_line_L "L" init)).
Proof.
  apply (fetched_table_well_formed source_line_L "L" init).
  intros line_id table H. unfold init in H. cbn [_topology_cache] in H.
  rewrite lookup_empty in H. discriminate.
Defined.


End CacheMore.

(** ** The path check, further *)

Module PathMore.
Import Py Spec PyFacts Topology PathCheck RouteOrder.

(** X15.  The start is strictly before the target and the terminus: no stop is on
    the path from itself, and nothing is on the path from the terminus. *)
Theorem start_is_strictly_before (topology : TopologyTable)
    (start_id target_id terminus_id : option string) :
  check_stop_on_path topology start_id start_id terminus_id = false
  /\ check_stop_on_path topology terminus_id target_id terminus_id = false.
Proof.
  split; apply not_true_is_false; intros H;
    apply check_true_iff in H as (t & routes & route & _ & _ & _ & Hs);
    destruct Hs as (i & j & k & Hi & Hj & Hk & Hlt & Hle).
  - pose proof (first_at_unique _ _ _ _ Hi Hj). lia.
  - pose proof (first_at_unique _ _ _ _ Hi Hk). lia.
Qed.

End PathMore.

(** ** The refresh, further *)

Module RefreshMore.
Import Coordinator RefreshSpec RefreshMoreSpec Refresh.

Lemma STIF_marker_has_colon (s : string) :
  Py.contains "STIF:" s = true -> Py.contains ":" s = true.
Proof.
  induction s as [|c s IH]; intros H; [discriminate|].
  cbn [Py.contains] in H. apply orb_true_iff in H as [H|H].
  - apply Normalisation.startswith_app in H as [rest ->].
    change ("STIF:" +:+ rest) with ("STIF" +:+ ":" +:+ rest).
    apply Normalisation.contains_app_r, Normalisation.contains_prefixed.
  - cbn [Py.contains]. rewrite (IH H). apply orb_true_r.
Qed.

(** X16.  A coordinator whose destination holds the marker ["STIF:"] always has a
    normalised destination, free of colons; the topology pass then applies
    exactly when that code is not empty. *)
Theorem topology_mode_has_code (transport_type : TransportType) (line_id : string)
    (stop_area_id direction destination : option string) (exclude_elevators : bool) :
  use_topology (init transport_type line_id stop_area_id direction destination
                  exclude_elevators) = true ->
  exists code,
    destination_simple (init transport_type line_id stop_area_id direction destination
                          exclude_elevators) = Some code
    /\ Spec.colon_free code
    /\ (Py.truthy (Some code) = true <-> code <> "").
Proof.
  unfold use_topology. cbn [init Coordinator.destination destination_simple].
  intros H. apply andb_true_iff in H as [Htruthy Hmarker].
  destruct destination as [dest|]; [|discriminate]. rewrite Htruthy.
  apply STIF_marker_has_colon in Hmarker.
  unfold _extract_stif_id. rewrite Htruthy.
  destruct (NormalisationMore.item_m2_is_Some (Py.split ":" dest)) as [code Hcode].
  { now apply NormalisationMore.split_colon_two. }
  rewrite Hcode. exists code. split; [reflexivity|].
  split; [now apply (NormalisationMore.second_to_last_colon_free dest)|].
  destruct code; simpl; split; congruence.
Qed.

Lemma topology_mode_has_code_witness :
  exists code,
    destination_simple at_200_to_300 = Some code
    /\ Spec.colon_free code
    /\ (Py.truthy (Some code) = true <-> code <> "").
Proof.
  apply (topology_mode_has_code BUS "L" (Some "STIF:StopPoint:Q:200:") None
           (Some "STIF:StopPoint:Q:300:") true).
  reflexivity.
Defined.

Section Stable.
Context {A : Type}.
Variable key : A -> Z.

(** The sort is stable: the elements of one key keep their order. *)
Lemma insert_by_same_key (t : Z) (x : A) (l : list A) :
  List.filter (fun y => (key y =? t)%Z) (Py.insert_by key x l)
  = List.filter (fun y => (key y =? t)%Z) (x :: l).
Proof.
  induction l as [|y l IH]; [reflexivity|].
  cbn [Py.insert_by]. destruct (Z.leb_spec (key x) (key y)) as [Hle|Hgt]; [reflexivity|].
  cbn [List.filter] in *. rewrite IH.
  destruct (Z.eqb_spec (key x) t) as [Hx|Hx]; [|reflexivity].
  destruct (Z.eqb_spec (key y) t) as [Hy|Hy]; [lia | reflexivity].
Qed.

Lemma sorted_same_key (t : Z) (l : list A) :
  List.filter (fun y => (key y =? t)%Z) (Py.sorted key l)
  = List.filter (fun y => (key y =? t)%Z) l.
Proof.
  induction l as [|x l IH]; [reflexivity|].
  change (Py.sorted key (x :: l)) with (Py.insert_by key x (Py.sorted key l)).
  rewrite insert_by_same_key. cbn [List.filter]. now rewrite IH.
Qed.

End Stable.

Section Cycle.
Context {TrafficData ReportData : Type}.
Variable schedule : TrafficData -> option Z.
Variable destination_id : TrafficData -> option string.
Variable api_get_traffic :
  option string -> option string -> option string -> string -> option (list TrafficData).
Variable api_get_line_reports : string -> bool -> option (list ReportData).
Variable navitia : list string -> string -> Topology.HttpReply.

Local Abbreviation refresh :=
  (_async_update_data schedule destination_id api_get_traffic api_get_line_reports navitia).
Local Abbreviation traffic_of c :=
  (api_get_traffic (stop_area_id c)
     (if use_topology c then None else destination c)
     (if use_topology c then None else direction c) (line_id c)).

(** What a refresh that produced data went through. *)
Lemma updated_inv (c : IDFMDataUpdateCoordinator) (d : Clock) (topo topo' : Topology.State)
    (data : Data) :
  refresh c d topo = (Updated data, topo') ->
  exists tr,
    traffic_of c = Some tr
    /\ DATA_TRAFFIC data
       = Py.sorted (schedule_key schedule)
           (List.filter (in_future schedule (utcd d))
              (fst (topology_pass destination_id navitia c tr topo)))
    /\ topo' = snd (topology_pass destination_id navitia c tr topo).
Proof.
  unfold _async_update_data. intros Hrun.
  destruct (refresh_due c d); [|discriminate].
  destruct (api_get_traffic _ _ _ _) as [tr|]; [|discriminate].
  exists tr. split; [reflexivity|].
  destruct (topology_pass destination_id navitia c tr topo) as [tr' st'].
  destruct (api_get_line_reports _ _) as [inf|]; [|discriminate].
  injection Hrun as <- <-. auto.
Qed.

Lemma topology_pass_fst (c : IDFMDataUpdateCoordinator) (tr : list TrafficData)
    (topo : Topology.State) :
  fst (topology_pass destination_id navitia c tr topo)
  = if use_topology c && Py.truthy (destination_simple c)
    then List.filter (fun train =>
           Topology.check_stop_on_path
             (fst (Topology.get_ordered_stops navitia (line_id c) topo))
             (stop_id_simple c) (destination_simple c)
             (_extract_stif_id (destination_id train))) tr
    else tr.
Proof.
  unfold topology_pass. destruct (use_topology c && Py.truthy (destination_simple c));
    [|reflexivity].
  destruct (Topology.get_ordered_stops navitia (line_id c) topo) as [topo_data st].
  cbn [fst]. now rewrite filter_loop_filter.
Qed.

(** X17.  When a refresh produces data, the departures of the list that share a
    schedule stand in the order in which the provider listed them: for
    every time [t], the departures scheduled at [t] are, in the same order,
    those of the fetched list that passed the topology pass and the time
    filter. *)
Theorem same_schedule_keeps_fetch_order (c : IDFMDataUpdateCoordinator) (d : Clock)
    (topo topo' : Topology.State) (data : Data) (t : Z) :
  refresh c d topo = (Updated data, topo') ->
  exists tr,
    traffic_of c = Some tr
    /\ List.filter (scheduled_at schedule t) (DATA_TRAFFIC data)
       = List.filter (scheduled_at schedule t)
           (List.filter (in_future schedule (utcd d))
              (if use_topology c && Py.truthy (destination_simple c)
               then List.filter (fun train =>
                      Topology.check_stop_on_path
                        (fst (Topology.get_ordered_stops navitia (line_id c) topo))
                        (stop_id_simple c) (destination_simple c)
                        (_extract_stif_id (destination_id train))) tr
               else tr)).
Proof.
  intros Hrun. destruct (updated_inv c d topo topo' data Hrun) as (tr & Htr & Hdata & _).
  exists tr. split; [exact Htr|]. rewrite Hdata, topology_pass_fst.
  match goal with
  | |- context [Py.sorted _ ?l0] => set (l := l0)
  end.
  assert (Hall : Forall (fun x => is_Some (schedule x)) l).
  { rewrite Forall_forall. intros x Hx. apply list_elem_of_In in Hx.
    apply filter_In in Hx as [_ Hx]. apply in_future_iff in Hx as (u & Hu & _).
    rewrite Hu. eauto. }
  assert (Hsame : forall l', Forall (fun x => is_Some (schedule x)) l' ->
            List.filter (scheduled_at schedule t) l'
            = List.filter (fun y => (schedule_key schedule y =? t)%Z) l').
  { intros l' Hl'. apply filter_ext_in. intros x Hx.
    rewrite Forall_forall in Hl'. apply list_elem_of_In in Hx.
    destruct (Hl' x Hx) as [u Hu]. unfold scheduled_at, schedule_key. now rewrite Hu. }
  assert (Hall' : Forall (fun x => is_Some (schedule x)) (Py.sorted (schedule_key schedule) l)).
  { rewrite Forall_forall in Hall |- *. intros x Hx. apply Hall.
    apply list_elem_of_In. apply list_elem_of_In in Hx.
    apply (Permutation_in _ (sorted_perm (schedule_key schedule) l)). exact Hx. }
  rewrite (Hsame l Hall), (Hsame _ Hall'). apply sorted_same_key.
Qed.

(** X18.  For the rail modes the refresh is skipped from 01:30 on and before
    05:30, and only then; a skipped refresh asks nothing and leaves the
    topology state as it was. *)
Theorem refresh_skipped_at_night (c : IDFMDataUpdateCoordinator) (d : Clock)
    (topo : Topology.State) :
  (0 <= minute d < 60)%Z ->
  (fst (refresh c d topo) = Skipped
   <-> is_rail (transport_type c) = true /\ night_break d)
  /\ (fst (refresh c d topo) = Skipped -> refresh c d topo = (Skipped, topo)).
Proof.
  intros Hmin.
  assert (Hdue : refresh_due c d = false
                 <-> is_rail (transport_type c) = true /\ night_break d).
  { unfold refresh_due, night_break. destruct (is_rail (transport_type c)); simpl.
    - rewrite !orb_false_iff, !andb_false_iff, !Z.eqb_neq, !Z.ltb_ge, Z.leb_gt. lia.
    - split; [discriminate | intros [? _]; discriminate]. }
  assert (Hskip : fst (refresh c d topo) = Skipped -> refresh_due c d = false).
  { unfold _async_update_data. destruct (refresh_due c d); [|reflexivity].
    destruct (api_get_traffic _ _ _ _) as [tr|]; [|discriminate].
    destruct (topology_pass destination_id navitia c tr topo) as [tr' st'].
    destruct (api_get_line_reports _ _); discriminate. }
  split.
  - rewrite <- Hdue. split; [exact Hskip|].
    intros H. unfold _async_update_data. now rewrite H.
  - intros H. apply Hskip in H. unfold _async_update_data. now rewrite H.
Qed.

(** X19.  A refresh that is due ends in [UpdateFailed] whenever one of the
    two provider calls raises.  When it is the traffic call, nothing else
    has happened and the topology state is as it was; when it is the
    reports call, the topology state is the one the topology pass left, so
    a table fetched in this refresh stays cached. *)
Theorem provider_error_fails_update (c : IDFMDataUpdateCoordinator) (d : Clock)
    (topo : Topology.State) :
  refresh_due c d = true ->
  (traffic_of c = None -> refresh c d topo = (UpdateFailed, topo))
  /\ (forall tr,
        traffic_of c = Some tr ->
        api_get_line_reports (line_id c) (exclude_elevators c) = None ->
        refresh c d topo
        = (UpdateFailed, snd (topology_pass destination_id navitia c tr topo))).
Proof.
  intros Hdue. unfold _async_update_data. rewrite Hdue. split.
  - intros Htr. now rewrite Htr.
  - intros tr Htr Hinf. rewrite Htr.
    destruct (topology_pass destination_id navitia c tr topo) as [tr' st'].
    now rewrite Hinf.
Qed.

(** X20.  The topology resolver is left alone unless the refresh is due, the
    destination is a stop identifier with a non-empty code, and the traffic
    call answered. *)
Theorem resolver_untouched (c : IDFMDataUpdateCoordinator) (d : Clock)
    (topo : Topology.State) :
  refresh_due c d = false \/ use_topology c = false
  \/ Py.truthy (destination_simple c) = false \/ traffic_of c = None ->
  snd (refresh c d topo) = topo.
Proof.
  intros H. unfold _async_update_data, topology_pass.
  destruct (refresh_due c d); [|reflexivity].
  destruct (api_get_traffic _ _ _ _) as [tr|]; [|reflexivity].
  assert (Hoff : use_topology c && Py.truthy (destination_simple c) = false).
  { destruct H as [H|[H|[H|H]]]; try discriminate; rewrite H;
      [reflexivity | apply andb_false_r]. }
  rewrite Hoff. now destruct (api_get_line_reports _ _).
Qed.

(** X21.  In topology mode, a failed routes request for a line that is not cached
    leaves no departure at all: the table is empty, so every departure is
    filtered out. *)
Theorem failed_fetch_drops_all (c : IDFMDataUpdateCoordinator) (d : Clock)
    (topo : Topology.State) (tr : list TrafficData) (inf : list ReportData) :
  refresh_due c d = true ->
  use_topology c && Py.truthy (destination_simple c) = true ->
  Topology._topology_cache topo !! line_id c = None ->
  CacheSpec.fetch_failed (navitia (Topology.requests topo) (Topology.routes_url (line_id c)))
  = true ->
  traffic_of c = Some tr ->
  api_get_line_reports (line_id c) (exclude_elevators c) = Some inf ->
  refresh c d topo
  = (Updated {| DATA_TRAFFIC := []; DATA_INFO := inf |},
     {| Topology._topology_cache := Topology._topology_cache topo;
        Topology.requests := Topology.requests topo ++ [Topology.routes_url (line_id c)] |}).
Proof.
  intros Hdue Hmode Hmiss Hfail Htr Hinf.
  unfold _async_update_data, topology_pass.
  rewrite Hdue, Htr, Hmode, (Cache.failed_fetch navitia _ _ Hmiss Hfail), Hinf.
  rewrite filter_loop_filter.
  assert (Hnone : forall l : list TrafficData,
            List.filter (fun train =>
              Topology.check_stop_on_path ∅ (stop_id_simple c) (destination_simple c)
                (_extract_stif_id (destination_id train))) l = []).
  { induction l as [|x l IH]; [reflexivity|]. cbn [List.filter].
    unfold Topology.check_stop_on_path at 1.
    destruct (_extract_stif_id (destination_id x)) as [t|]; [|exact IH].
    rewrite lookup_empty. exact IH. }
  now rewrite Hnone.
Qed.

End Cycle.

(** X22.  The stored choice for the elevator reports has no effect: the
    coordinator built from an entry always excludes them, so the refresh
    does not depend on what the provider would answer when they are asked
    for. *)
Theorem elevators_always_excluded {TrafficData ReportData : Type}
    (schedule : TrafficData -> option Z) (destination_id : TrafficData -> option string)
    (api_get_traffic :
       option string -> option string -> option string -> string
       -> option (list TrafficData))
    (reports1 reports2 : string -> bool -> option (list ReportData))
    (navitia : list string -> string -> Topology.HttpReply)
    (data : Setup.EntryData) (d : Clock) (topo : Topology.State) :
  (forall line_id, reports1 line_id true = reports2 line_id true) ->
  exclude_elevators (Setup.coordinator_of_entry data) = true
  /\ _async_update_data schedule destination_id api_get_traffic reports1 navitia
       (Setup.coordinator_of_entry data) d topo
     = _async_update_data schedule destination_id api_get_traffic reports2 navitia
         (Setup.coordinator_of_entry data) d topo.
Proof.
  intros Hsame.
  assert (Hex : exclude_elevators (Setup.coordinator_of_entry data) = true).
  { unfold Setup.coordinator_of_entry, Setup.py_or. cbn [init exclude_elevators].
    now destruct (Setup.CONF_EXCLUDE_ELEVATORS data) as [[|]|]. }
  split; [exact Hex|]. unfold _async_update_data. now rewrite Hex, Hsame.
Qed.

Lemma same_schedule_keeps_fetch_order_witness :
  exists tr,
    traffic_now (stop_area_id at_200_to_300) None None "L" = Some tr
    /\ List.filter (scheduled_at dep_schedule 1200) [dep_B; dep_A]
       = List.filter (scheduled_at dep_schedule 1200)
           (List.filter (in_future dep_schedule 1000)
              (List.filter (fun train =>
                 Topology.check_stop_on_path
                   (fst (Topology.get_ordered_stops CacheSpec.source_line_L "L" Topology.init))
                   (Some "200") (Some "300")
                   (_extract_stif_id (dep_destination_id train))) tr)).
Proof.
  apply (same_schedule_keeps_fetch_order dep_schedule dep_destination_id traffic_now
           no_reports CacheSpec.source_line_L at_200_to_300 noon Topology.init
           (snd (_async_update_data dep_schedule dep_destination_id traffic_now no_reports
                   CacheSpec.source_line_L at_200_to_300 noon Topology.init))
           {| DATA_TRAFFIC := [dep_B; dep_A]; DATA_INFO := [] |} 1200).
  vm_compute. reflexivity.
Defined.

Lemma refresh_skipped_at_night_witness :
  _async_update_data dep_schedule dep_destination_id traffic_now no_reports
    CacheSpec.source_line_L metro_at_200 three_am Topology.init
  = (Skipped, Topology.init).
Proof.
  destruct (refresh_skipped_at_night dep_schedule dep_destination_id traffic_now no_reports
              CacheSpec.source_line_L metro_at_200 three_am Topology.init) as [Hiff Hstate].
  - simpl. lia.
  - apply Hstate, Hiff. split; [reflexivity | unfold night_break; simpl; lia].
Defined.

Lemma provider_error_fails_update_witness :
  _async_update_data dep_schedule dep_destination_id
    (fun _ _ _ _ => @None (list Departure)) no_reports
    CacheSpec.source_line_L at_200_to_300 noon Topology.init
  = (UpdateFailed, Topology.init).
Proof.
  apply (provider_error_fails_update dep_schedule dep_destination_id
           (fun _ _ _ _ => @None (list Departure)) no_reports
           CacheSpec.source_line_L at_200_to_300 noon Topology.init); reflexivity.
Defined.

(** The reports call raises after the table of line ["L"] was fetched: the
    refresh fails and the table stays cached. *)
Example reports_error_keeps_table :
  _async_update_data dep_schedule dep_destination_id traffic_now
    (fun _ _ => @None (list string))
    CacheSpec.source_line_L at_200_to_300 noon Topology.init
  = (UpdateFailed, snd (Topology.get_ordered_stops CacheSpec.source_line_L "L" Topology.init)).
Proof. vm_compute. reflexivity. Qed.

Lemma resolver_untouched_witness :
  snd (_async_update_data dep_schedule dep_destination_id traffic_now no_reports
         CacheSpec.source_line_L metro_at_200 noon Topology.init)
  = Topology.init.
Proof.
  apply (resolver_untouched dep_schedule dep_destination_id traffic_now no_reports
           CacheSpec.source_line_L metro_at_200 noon Topology.init).
  right. left. reflexivity.
Defined.

Lemma failed_fetch_drops_all_witness :
  _async_update_data dep_schedule dep_destination_id traffic_now no_reports
    CacheSpec.source_down at_200_to_300 noon Topology.init
  = (Updated {| DATA_TRAFFIC := []; DATA_INFO := [] |},
     {| Topology._topology_cache := ∅;
        Topology.requests := [] ++ [Topology.routes_url "L"] |}).
Proof.
  apply (failed_fetch_drops_all dep_schedule dep_destination_id traffic_now no_reports
           CacheSpec.source_down at_200_to_300 noon Topology.init
           [dep_A; dep_B; dep_C; dep_D; dep_E] []); reflexivity.
Defined.

Lemma elevators_always_excluded_witness :
  _async_update_data dep_schedule dep_destination_id traffic_now reports_a
    CacheSpec.source_line_L (Setup.coordinator_of_entry entry_with_elevators) noon
    Topology.init
  = _async_update_data dep_schedule dep_destination_id traffic_now reports_b
      CacheSpec.source_line_L (Setup.coordinator_of_entry entry_with_elevators) noon
      Topology.init.
Proof.
  apply (elevators_always_excluded dep_schedule dep_destination_id traffic_now
           reports_a reports_b CacheSpec.source_line_L entry_with_elevators noon
           Topology.init).
  intros line_id. reflexivity.
Defined.

End RefreshMore.

(** ** The topology fetch on arbitrary answers *)

Module RawFetch.
Import Topology.
Import TopologyRaw.

(** The fetch of line ["L"] when a stop point has a null id: the [in] test
    raises [TypeError], which leaves [get_ordered_stops]; both requests have
    been sent and nothing is cached. *)
Example null_id_raises :
  TopologyRaw.get_ordered_stops (fun _ => "") source_null_id "L" init
  = (Raise TypeError,
     {| _topology_cache := ∅;
        requests := [routes_url "L"; points_url "route:IDFM:L:1"] |}).
Proof. vm_compute. reflexivity. Qed.


Lemma lookup_field_contains (key : string) (fields : list (string * Json)) (v : Json) :
  lookup_field key fields = Some v ->
  existsb (fun kv => String.eqb (fst kv) key) fields = true.
Proof.
  induction fields as [|[k x] rest IH]; [discriminate|].
  cbn [lookup_field existsb fst]. destruct (String.eqb k key); [reflexivity | exact IH].
Qed.

Section Source.
Variable py_repr : Json -> string.





Variable navitia : list string -> string -> RawReply.

Lemma raw_request_state (url : string) (st : State) :
  _topology_cache (snd (TopologyRaw._navitia_request navitia url st)) = _topology_cache st
  /\ requests (snd (TopologyRaw._navitia_request navitia url st)) = requests st ++ [url].
Proof.
  unfold TopologyRaw._navitia_request.
  destruct (navitia (requests st) url) as [|status json]; [split; reflexivity|].
  destruct (status =? 200)%Z; split; reflexivity.
Qed.

(** The outer loop never touches the cache; when it ends without raising,
    every route had an id and one stop points request was sent for each, in
    order. *)
Lemma raw_routes_fetch_state (routes : list Json) : forall topology st,
  _topology_cache (snd (TopologyRaw.routes_fetch py_repr navitia routes topology st))
  = _topology_cache st
  /\ (forall table,
        fst (TopologyRaw.routes_fetch py_repr navitia routes topology st) = Ok table ->
        List.length (route_ids routes) = List.length routes
        /\ requests (snd (TopologyRaw.routes_fetch py_repr navitia routes topology st))
           = requests st ++ map (fun id => points_url (format py_repr id)) (route_ids routes)).
Proof.
  induction routes as [|route rest IH]; intros topology st.
  - split; [reflexivity|]. intros table _. split; [reflexivity|].
    simpl. now rewrite app_nil_r.
  - cbn [TopologyRaw.routes_fetch route_ids].
    destruct (subscript "id" route) as [route_id|e]; [|split; [reflexivity | discriminate]].
    destruct (raw_request_state (points_url (format py_repr route_id)) st) as [Hc Hl].
    destruct (TopologyRaw._navitia_request navitia (points_url (format py_repr route_id)) st)
      as [points_data st1].
    cbn [snd] in Hc, Hl.
    assert (Hgo : forall topology',
      _topology_cache (snd (TopologyRaw.routes_fetch py_repr navitia rest topology' st1))
      = _topology_cache st
      /\ (forall table,
            fst (TopologyRaw.routes_fetch py_repr navitia rest topology' st1) = Ok table ->
            List.length (route_id :: route_ids rest) = List.length (route :: rest)
            /\ requests (snd (TopologyRaw.routes_fetch py_repr navitia rest topology' st1))
               = requests st ++ map (fun id => points_url (format py_repr id))
                                  (route_id :: route_ids rest))).
    { intros topology'. destruct (IH topology' st1) as [H1 H2]. split; [now rewrite H1|].
      intros table Hok. destruct (H2 table Hok) as [Hlen Hreq].
      split; [simpl; now rewrite Hlen|]. rewrite Hreq, Hl, <- app_assoc. reflexivity. }
    destruct (truthy points_data); [|apply Hgo].
    destruct (add_points points_data topology) as [topology'|e]; [apply Hgo|].
    split; [exact Hc | discriminate].
Qed.

(** X13.  A fetch whose routes request answers 200 with an object that
    lists routes.  If [get_ordered_stops] returns, every route had an id,
    the requests are the routes request followed by one stop points request
    per route in order, the table is cached under the line, and the next
    call for the line returns it without any request, whatever the data
    source has become.  If it raises, nothing is cached. *)
Theorem fetch_then_hit (line_id : string) (st : State) (fields : list (string * Json))
    (routes : list Json) :
  _topology_cache st !! line_id = None ->
  navitia (requests st) (routes_url line_id) = RawResponse 200 (JObj fields) ->
  lookup_field "routes" fields = Some (JArr routes) ->
  match TopologyRaw.get_ordered_stops py_repr navitia line_id st with
  | (Ok table, st') =>
      List.length (route_ids routes) = List.length routes
      /\ requests st'
         = requests st ++ routes_url line_id
             :: map (fun id => points_url (format py_repr id)) (route_ids routes)
      /\ _topology_cache st' = <[line_id := table]> (_topology_cache st)
      /\ forall py_repr' navitia',
           TopologyRaw.get_ordered_stops py_repr' navitia' line_id st' = (Ok table, st')
  | (Raise e, st') => _topology_cache st' = _topology_cache st
  end.
Proof.
  intros Hmiss Hreply Hroutes.
  unfold TopologyRaw.get_ordered_stops at 1. rewrite Hmiss.
  destruct (raw_request_state (routes_url line_id) st) as [Hc Hl].
  unfold TopologyRaw._navitia_request in *. rewrite Hreply in *.
  cbn [Z.eqb Pos.eqb snd] in *. cbv iota.
  assert (Htruthy : truthy (JObj fields) = true) by (destruct fields; [discriminate | reflexivity]).
  rewrite Htruthy. cbn [contains subscript iterate].
  rewrite (lookup_field_contains _ _ _ Hroutes), Hroutes. cbv iota. cbn [iterate].
  match goal with
  | |- context [TopologyRaw.routes_fetch py_repr navitia routes ∅ ?s] =>
      destruct (raw_routes_fetch_state routes ∅ s) as [Hcache Hok];
      destruct (TopologyRaw.routes_fetch py_repr navitia routes ∅ s) as [[topology|e] st2]
  end; cbn [fst snd _topology_cache requests] in *.
  - destruct (Hok topology eq_refl) as [Hlen Hreq].
    split; [exact Hlen|]. split; [now rewrite Hreq, <- app_assoc|].
    split; [now rewrite Hcache|].
    intros py_repr' navitia'. unfold TopologyRaw.get_ordered_stops.
    cbn [_topology_cache]. now rewrite lookup_insert_eq.
  - exact Hcache.
Qed.

End Source.

Lemma fetch_then_hit_witness :
  match TopologyRaw.get_ordered_stops (fun _ => "") (lift CacheSpec.source_line_L) "L" init with
  | (Ok table, st') =>
      List.length (route_ids [JObj [("id", JStr "route:IDFM:L:1")]]) = 1
      /\ requests st'
         = [] ++ routes_url "L"
             :: map (fun id => points_url (format (fun _ => "") id))
                  (route_ids [JObj [("id", JStr "route:IDFM:L:1")]])
      /\ _topology_cache st' = <[ "L" := table ]> ∅
      /\ forall py_repr' navitia',
           TopologyRaw.get_ordered_stops py_repr' navitia' "L" st' = (Ok table, st')
  | (Raise e, st') => _topology_cache st' = ∅
  end
  /\ match TopologyRaw.get_ordered_stops (fun _ => "") source_null_id "L" init with
     | (Ok table, st') =>
         List.length (route_ids [JObj [("id", JStr "route:IDFM:L:1")]]) = 1
         /\ requests st'
            = [] ++ routes_url "L"
                :: map (fun id => points_url (format (fun _ => "") id))
                     (route_ids [JObj [("id", JStr "route:IDFM:L:1")]])
         /\ _topology_cache st' = <[ "L" := table ]> ∅
         /\ forall py_repr' navitia',
              TopologyRaw.get_ordered_stops py_repr' navitia' "L" st' = (Ok table, st')
     | (Raise e, st') => _topology_cache st' = ∅
     end.
Proof.
  split.
  - apply (fetch_then_hit (fun _ => "") (lift CacheSpec.source_line_L) "L" init
             [("routes", JArr [JObj [("id", JStr "route:IDFM:L:1")]])]
             [JObj [("id", JStr "route:IDFM:L:1")]]); reflexivity.
  - apply (fetch_then_hit (fun _ => "") source_null_id "L" init
             [("routes", JArr [JObj [("id", JStr "route:IDFM:L:1")]])]
             [JObj [("id", JStr "route:IDFM:L:1")]]); reflexivity.
Defined.

(** The same fetch when every id is a string: the table of the scenario is
    returned and cached. *)
Example string_ids_fetch :
  TopologyRaw.get_ordered_stops (fun _ => "") (lift CacheSpec.source_line_L) "L" init
  = (Ok Spec.line_L,
     {| _topology_cache := {[ "L" := Spec.line_L ]};
        requests := [routes_url "L"; points_url "route:IDFM:L:1"] |}).
Proof. vm_compute. reflexivity. Qed.

End RawFetch.
